(** * The teleport client (lib/client/client.go)

    A shallow embedding of the proxy and node clients: cluster selection
    ([getSite]), the credential trial loop ([ConnectToNode]), session
    creation ([newSession]), the shell start ([Shell]), the terminal resize
    loop ([updateTerminalSize]), the file-transfer bridge ([scp]) and the
    port-forward relay ([listenAndForward]).

    Everything the client asks of a collaborator (the ssh transport, the
    terminal, the operating system) is an explicit oracle, and everything it
    does to one is recorded in an event trace, in program order.  Info and
    debug log lines are not traced. *)

From stdpp Require Import base option list strings gmap pretty.
From Stdlib Require Import Ascii ZArith Lia.

Set Default Goal Selector "!".

(** ** Go values *)

(** Error values.  [ErrorString] is an error produced by a collaborator
    library (ssh, net, term, io); the others are built by the [trace]
    package exactly as client.go calls it: [trace.Wrap(err)],
    [trace.Errorf(format, args...)] and [trace.NotFound(format, args...)].
    The format string and the arguments are kept apart, so that a returned
    error shows what it names. *)
Inductive error : Type :=
| ErrorString (msg : string)
| Wrap (err : error)
| Errorf (format : string) (args : list fmt_arg)
| NotFound (format : string) (args : list fmt_arg)
with fmt_arg : Type :=
| AString (s : string)
| AInt (n : Z)
| AError (err : error).

(** A Go result pair [(value, error)] of which exactly one side is set. *)
Inductive result (A : Type) : Type :=
| Ok (a : A)
| Err (err : error).
Arguments Ok {A} a.
Arguments Err {A} err.

(** [trace.Wrap] of a possibly nil error: nil stays nil. *)
Definition WrapNil (err : option error) : option error := Wrap <$> err.

(** [strings.Split(s, sep)] for a separator of one byte, which is the only
    way client.go calls it ([strings.Split(nodeAddress, "@")]): the pieces
    of [s] between the separators, in order.  The result is never empty,
    so the last branch is never taken. *)
Fixpoint Split (s : string) (sep : ascii) : list string :=
  match s with
  | EmptyString => [EmptyString]
  | String c s' =>
      if Ascii.eqb c sep then EmptyString :: Split s' sep
      else match Split s' sep with
           | piece :: pieces => String c piece :: pieces
           | [] => [String c EmptyString]
           end
  end.

(** [parts[0]] and [parts[len(parts)-1]] of a slice of strings.  [Split]
    never returns an empty slice, so the default is never taken. *)
Definition first_part (parts : list string) : string := default EmptyString (head parts).
Definition last_part (parts : list string) : string := default EmptyString (last parts).

(** [fmt.Sprintf("%d", n)] for an unsigned integer. *)
Definition decimal (n : N) : string := pretty n.

(** The escape character, [\x1b]. *)
Definition ESC : string := String (ascii_of_nat 27) EmptyString.

(** ** Data model *)

(** [ssh.AuthMethod]: an opaque credential, told apart by a number. *)
Inductive AuthMethod : Type := Credential (id : nat).

(** [services.Site]: client.go reads the [Name] field only; [Routing]
    stands for the rest of what the relay reports about a cluster. *)
Record Site : Type := { Name : string; Routing : string }.

(** [ProxyClient].  The [Client] and [hostKeyCallback] fields are the
    transport; their behaviour is the [Transport] oracle below. *)
Record ProxyClient : Type := {
  hostLogin : string;
  proxyAddress : string;
  authMethods : list AuthMethod;
  siteName : string
}.

(** An established ssh client connection ([*ssh.Client]). *)
Inductive SSHClient : Type := Connection (id : nat).

(** [NodeClient]. *)
Record NodeClient : Type := {
  Client : SSHClient;
  Proxy : ProxyClient
}.

(** ** getSite *)

(** The [for _, site := range sites] loop of [getSite]: the first record
    whose name is the wanted one. *)
Fixpoint findSite (name : string) (sites : list Site) : option Site :=
  match sites with
  | [] => None
  | site :: rest =>
      if decide (Name site = name) then Some site else findSite name rest
  end.

(** [getSite], given what [proxy.GetSites()] returned. *)
Definition getSite (proxy : ProxyClient) (GetSites : result (list Site))
  : result Site :=
  match GetSites with
  | Err err => Err (Wrap err)
  | Ok sites =>
      match sites with
      | [] => Err (NotFound "no sites registered" [])
      | site0 :: _ =>
          if decide (siteName proxy = EmptyString) then Ok site0
          else match findSite (siteName proxy) sites with
               | Some site => Ok site
               | None => Err (NotFound "site %v not found" [AString (siteName proxy)])
               end
      end
  end.

(** ** The ssh transport and the event trace *)

(** [utils.NetAddr], as returned by [utils.ParseAddr]. *)
Record NetAddr : Type := { AddrNetwork : string; Addr : string }.

(** [utils.NewPipeNetConn(reader, writer, closer, localAddr, remoteAddr)]
    over the pipes of session [conn_session]. *)
Record PipeNetConn : Type := {
  conn_session : nat;
  conn_local : NetAddr;
  conn_remote : NetAddr
}.

(** [ssh.ClientConfig].  The host key callback is the proxy's own in every
    configuration built here. *)
Record ClientConfig : Type := {
  User : string;
  Auth : list AuthMethod
}.

(** Helpers of lib/utils that client.go calls; their code is in another
    package, so they are parameters of the model. *)
Record Utils : Type := {
  IsHandshakeFailedError : error → bool;
  ParseAddr : string → result NetAddr
}.

(** What an [*ssh.Client] answers.  Sessions are numbered in the order
    they are opened on the client: [NewSession n] is the outcome of the
    call that opens session [n], and the other session operations name the
    session they act on.  [None] is a nil error. *)
Record Transport : Type := {
  NewSession : nat → option error;
  StdinPipe : nat → option error;
  StdoutPipe : nat → option error;
  StderrPipe : nat → option error;
  RequestSubsystem : nat → string → option error;
  NewClientConn : PipeNetConn → string → ClientConfig → result SSHClient;
  RequestPty : nat → string → Z → Z → option error;
  StartShell : nat → option error;
  Setenv : nat → string → string → option error;
  Run : nat → string → option error
}.

(** [term.Winsize]: unsigned 16-bit fields. *)
Record Winsize : Type := { Height : N; Width : N }.

(** Everything the client does to a collaborator, in program order. *)
Inductive event : Type :=
| ENewSession (s : nat)
| EStdinPipe (s : nat)
| EStdoutPipe (s : nat)
| EStderrPipe (s : nat)
| ERequestSubsystem (s : nat) (name : string)
| ENewClientConn (conn : PipeNetConn) (addr : string) (config : ClientConfig)
| ECloseSession (s : nat)
| EPrintErrors (s : nat)
| ERequestPty (s : nat) (term : string) (h w : Z)
| EShell (s : nat)
| ESetenv (s : nat) (key val : string)
| EWindowChange (s : nat) (W H : N)
| EGetWinsize
| ESetRawTerminal
| ERestoreTerminal
| ESetWinsize (ws : Winsize)
| EStdoutWrite (bytes : string)
| EGetenv (name : string)
| ENewID
| EGetSession (id : string)
| EGo (task : string)
| EDial (network addr : string)
| ESleep (nanoseconds : Z)
| ECopy (dst src : string)
| EClose (what : string)
| ELogError (err : error)
| ELogWarn (err : error)
| ELogErrorf (format : string) (args : list fmt_arg)
| ELogWarnf (format : string) (args : list fmt_arg)
| EConnectToSite.

(** Prefix the events of a step to what follows it. *)
Definition emit {A : Type} (evs : list event) (r : A * list event)
  : A * list event :=
  (r.1, evs ++ r.2).

(** ** ConnectToNode *)

(** The double quote character, for format strings that contain it. *)
Definition quote : string := String (ascii_of_nat 34) EmptyString.

Definition access_denied_format : string :=
  "access denied to login " +:+ quote +:+ "%v" +:+ quote
    +:+ " when connecting to %v: %v".

(** The [for _, authMethod := range proxy.authMethods] loop of
    [ConnectToNode] and the code that follows it.  [e] is the variable [e]
    of the source, [n] the number of sessions opened so far. *)
Fixpoint tryAuthMethods (U : Utils) (T : Transport) (proxy : ProxyClient)
    (nodeAddress user : string) (localAddr fakeAddr : NetAddr)
    (e : error) (n : nat) (methods : list AuthMethod)
  : result NodeClient * list event :=
  match methods with
  | [] =>
      if IsHandshakeFailedError U e then
        let parts := Split nodeAddress "@" in
        (Err (Errorf access_denied_format
                [AString user; AString (first_part parts); AError e]), [])
      else (Err e, [])
  | authMethod :: rest =>
      emit [ENewSession n]
      match NewSession T n with
      | Some err => (Err (Wrap err), [])
      | None =>
      emit [EStdinPipe n]
      match StdinPipe T n with
      | Some err => (Err (Wrap err), [])
      | None =>
      emit [EStdoutPipe n]
      match StdoutPipe T n with
      | Some err => (Err (Wrap err), [])
      | None =>
      emit [EStderrPipe n]
      match StderrPipe T n with
      | Some err => (Err (Wrap err), [])
      | None =>
      emit [ERequestSubsystem n ("proxy:" +:+ nodeAddress)]
      match RequestSubsystem T n ("proxy:" +:+ nodeAddress) with
      | Some err =>
          let parts := Split nodeAddress "@" in
          let siteName := last_part parts in
          (Err (Errorf "Failed connecting to cluster %v: %v"
                  [AString siteName; AError err]),
           [EPrintErrors n])
      | None =>
      let pipeNetConn :=
        {| conn_session := n; conn_local := localAddr; conn_remote := fakeAddr |} in
      let sshConfig := {| User := user; Auth := [authMethod] |} in
      emit [ENewClientConn pipeNetConn nodeAddress sshConfig]
      match NewClientConn T pipeNetConn nodeAddress sshConfig with
      | Err err =>
          if IsHandshakeFailedError U err then
            emit [ECloseSession n]
              (tryAuthMethods U T proxy nodeAddress user localAddr fakeAddr
                 (Wrap err) (S n) rest)
          else (Err (Wrap err), [])
      | Ok client => (Ok {| Client := client; Proxy := proxy |}, [])
      end end end end end end
  end.

(** [ConnectToNode]: the result and the trace of what was done to the
    relay connection. *)
Definition ConnectToNode (U : Utils) (T : Transport) (proxy : ProxyClient)
    (nodeAddress user : string) : result NodeClient * list event :=
  let e := Errorf "unknown Error" [] in
  match ParseAddr U ("tcp://" +:+ proxyAddress proxy) with
  | Err err => (Err (Wrap err), [])
  | Ok localAddr =>
      match ParseAddr U ("tcp://" +:+ nodeAddress) with
      | Err err => (Err (Wrap err), [])
      | Ok fakeAddr =>
          tryAuthMethods U T proxy nodeAddress user localAddr fakeAddr
            e 0 (authMethods proxy)
      end
  end.

(** ** Sessions *)

(** [session.TerminalParams]: the geometry a session reports. *)
Record TerminalParams : Type := { W : Z; H : Z }.

(** [session.Session]. *)
Record Session : Type := {
  ID : string;
  Params : TerminalParams;
  Parties : list string
}.

(** Declarations of lib/session and lib/sshutils that client.go uses and
    that live in other packages: the constant [sshutils.SessionEnvVar] and
    the method [TerminalParams.Winsize()]. *)
Record SessionLib : Type := {
  SessionEnvVar : string;
  ParamsWinsize : TerminalParams → Winsize
}.

(** What the local machine answers while [newSession] runs:
    [term.GetWinsize(0)] (a size and a possibly nil error),
    [term.SetRawTerminal(0)], [term.SetWinsize(0, ws)], [os.Getenv] and the
    identifier that [session.NewID()] draws. *)
Record Host : Type := {
  GetWinsize : Winsize * option error;
  SetRawTerminal : option error;
  SetWinsize : Winsize → option error;
  Getenv : string → string;
  NewID : string
}.

(** [NodeSession]. *)
Record NodeSession : Type := {
  id : string;
  env : gmap string string;
  attachedTerm : bool;
  terminalSize : Winsize;
  serverSession : nat;
  nodeClient : NodeClient
}.

(** [if err != nil { log.Error(err) }] *)
Definition logError (err : option error) : list event :=
  match err with Some e => [ELogError e] | None => [] end.

(** [if err != nil { log.Warn(err) }] *)
Definition logWarn (err : option error) : list event :=
  match err with Some e => [ELogWarn e] | None => [] end.

(** The terminal resize escape, [fmt.Sprintf("\x1b[8;%d;%dt", h, w)]. *)
Definition resizeEscape (ws : Winsize) : string :=
  ESC +:+ "[8;" +:+ decimal (Height ws) +:+ ";" +:+ decimal (Width ws) +:+ "t".

(** [for _, evar := range evarsToPass] of [newSession]. *)
Fixpoint passEvars (T : Transport) (O : Host) (s : nat) (evars : list string)
  : list event :=
  match evars with
  | [] => []
  | evar :: rest =>
      let value := Getenv O evar in
      EGetenv evar ::
      (if decide (value = EmptyString) then []
       else ESetenv s evar value :: logWarn (Setenv T s evar value))
      ++ passEvars T O s rest
  end.

(** [for key, val := range env] of [newSession], over the entries in the
    order the runtime yields them. *)
Fixpoint passEnv (T : Transport) (s : nat) (entries : list (string * string))
  : list event :=
  match entries with
  | [] => []
  | (key, val) :: rest =>
      ESetenv s key val :: logWarn (Setenv T s key val) ++ passEnv T s rest
  end.

(** [newSession] from the join-or-new branch on; [size] is
    [ns.terminalSize] as the first part left it.  The caller's [env] and
    [ns.env] are one map when [env] is not nil, so the session identifier
    stored in [ns.env] is seen by the final loop over [env]; a nil [env] is
    replaced in [ns.env] only, and the final loop runs over nothing. *)
Definition newSessionFrom (L : SessionLib) (T : Transport) (O : Host)
    (client : NodeClient) (joinSession : option Session)
    (env : option (gmap string string)) (attachedTerm : bool)
    (size : Winsize) : result NodeSession * list event :=
  let '(id, size, joined) :=
    match joinSession with
    | Some js =>
        let size := ParamsWinsize L (Params js) in
        (ID js, size,
         if attachedTerm
         then ESetWinsize size :: logError (SetWinsize O size)
                ++ [EStdoutWrite (resizeEscape size)]
         else [])
    | None => (NewID O, size, [ENewID])
    end in
  let nsEnv := <[SessionEnvVar L := id]> (default ∅ env) in
  emit (joined ++ [ENewSession 0])
  match NewSession T 0 with
  | Some err => (Err (Wrap err), [])
  | None =>
      let ns := {| id := id; env := nsEnv; attachedTerm := attachedTerm;
                   terminalSize := size; serverSession := 0;
                   nodeClient := client |} in
      (Ok ns,
       passEvars T O 0 ["LANG"; "LANGUAGE"]
         ++ passEnv T 0 (match env with
                         | Some _ => map_to_list nsEnv
                         | None => []
                         end))
  end.

(** [newSession]. *)
Definition newSession (L : SessionLib) (T : Transport) (O : Host)
    (client : NodeClient) (joinSession : option Session)
    (env : option (gmap string string)) (attachedTerm : bool)
  : result NodeSession * list event :=
  let size := {| Height := 25; Width := 80 |} in
  if attachedTerm then
    let '(size, err) := GetWinsize O in
    emit (EGetWinsize :: logError err ++ [ESetRawTerminal])
    match SetRawTerminal O with
    | Some err => (Err (Wrap err), [])
    | None =>
        (* defer term.RestoreTerminal(0, state) *)
        let r := newSessionFrom L T O client joinSession env attachedTerm size in
        (r.1, r.2 ++ [ERestoreTerminal])
    end
  else newSessionFrom L T O client joinSession env attachedTerm size.

(** ** Shell *)

(** The [io.ReadWriteCloser] that [allocateTerminal] builds over the
    pipes of a session. *)
Inductive ShellPipe : Type := PipeOver (s : nat).

(** [allocateTerminal]: the Go pair [(pipe, err)] and the trace. *)
Definition allocateTerminal (T : Transport) (ns : NodeSession)
  : (option ShellPipe * option error) * list event :=
  let s := serverSession ns in
  let h := Z.of_N (Height (terminalSize ns)) in
  let w := Z.of_N (Width (terminalSize ns)) in
  emit [ERequestPty s "xterm" h w]
  match RequestPty T s "xterm" h w with
  | Some err => ((None, Some (Wrap err)), [])
  | None =>
  emit [EStdinPipe s]
  match StdinPipe T s with
  | Some err => ((None, Some (Wrap err)), [])
  | None =>
  emit [EStdoutPipe s]
  match StdoutPipe T s with
  | Some err => ((None, Some (Wrap err)), [])
  | None =>
  emit [EStderrPipe s]
  match StderrPipe T s with
  | Some err => ((None, Some (Wrap err)), [])
  | None =>
      ((Some (PipeOver s), None),
       (if attachedTerm ns then [EGo "updateTerminalSize"] else [])
         ++ [EGo "io.Copy(os.Stderr, stderr)"])
  end end end end.

(** [NodeClient.Shell]. *)
Definition Shell (T : Transport) (nc : NodeSession)
  : (option ShellPipe * option error) * list event :=
  let '((pipe, err), allocated) := allocateTerminal T nc in
  emit (allocated ++ [EShell (serverSession nc)])
  match StartShell T (serverSession nc) with
  | Some err => ((None, Some (Wrap err)), [])
  | None => ((pipe, err), [])
  end.

(** ** updateTerminalSize *)

(** One round of the [select] of [updateTerminalSize]: the case that fired
    together with what the collaborators answer while it is handled.
    - [SigC sig winsize sent]: a receive from [sigC] ([sig = false] is the
      nil signal), what [term.GetWinsize(0)] then returns and what
      [SendRequest] returns;
    - [TickC sess winsize set]: a tick, what [siteClient.GetSession]
      returns, what [term.GetWinsize(0)] returns and what [term.SetWinsize]
      returns;
    - [CloserC]: a receive from [closer.C]. *)
Inductive selected : Type :=
| SigC (sig : bool) (winsize : Winsize * option error) (sent : option error)
| TickC (sess : result (option Session)) (winsize : Winsize * option error)
        (set : option error)
| CloserC.

(** How the loop stands after the rounds it was given: it returned, it
    panicked, or it waits in [select] with these [currentSize] and
    [prevSess]. *)
Inductive loop_exit : Type :=
| Returned
| Panicked
| Waiting (currentSize : Winsize) (prevSess : option Session).

Definition sameSize (a b : Winsize) : bool :=
  (Height a =? Height b)%N && (Width a =? Width b)%N.

Definition sameParams (a b : TerminalParams) : bool :=
  (W a =? W b)%Z && (H a =? H b)%Z.

(** The [for { select { ... } }] loop.  [siteClient] is false when
    [ConnectToSite] failed and left a nil client, on which a method call
    panics. *)
Fixpoint resizeLoop (L : SessionLib) (ns : NodeSession) (siteClient : bool)
    (currentSize : Winsize) (prevSess : option Session)
    (rounds : list selected) : loop_exit * list event :=
  match rounds with
  | [] => (Waiting currentSize prevSess, [])
  | SigC sig (winSize, err) sent :: rest =>
      if negb sig then (Returned, [])
      else
        emit [EGetWinsize]
        match err with
        | Some e =>
            emit [ELogWarnf "[CLIENT] Error getting size: %s" [AError e]]
              (resizeLoop L ns siteClient currentSize prevSess rest)
        | None =>
            if sameSize winSize currentSize
            then resizeLoop L ns siteClient currentSize prevSess rest
            else
              emit (EWindowChange (serverSession ns) (Width winSize) (Height winSize)
                    :: match sent with
                       | Some e =>
                           [ELogWarnf "[CLIENT] failed to send window change reqest: %v"
                              [AError e]]
                       | None => []
                       end)
                (resizeLoop L ns siteClient currentSize prevSess rest)
        end
  | TickC sess (size, err) set :: rest =>
      if negb siteClient then (Panicked, [])
      else
        emit [EGetSession (id ns)]
        match sess with
        | Err e =>
            emit [ELogError e]
              (resizeLoop L ns siteClient currentSize prevSess rest)
        | Ok sess =>
            match prevSess, sess with
            | Some prev, Some cur =>
                if sameParams (Params prev) (Params cur)
                then resizeLoop L ns siteClient currentSize prevSess rest
                else
                  let newSize := ParamsWinsize L (Params cur) in
                  let currentSize := size in
                  emit (EGetWinsize :: logError err
                        ++ if negb (Width currentSize =? Width newSize)%N
                              || negb (Height currentSize =? Height newSize)%N
                           then ESetWinsize newSize :: logError set
                                  ++ [EStdoutWrite (resizeEscape newSize)]
                           else [])
                    (resizeLoop L ns siteClient currentSize (Some cur) rest)
            | _, _ => resizeLoop L ns siteClient currentSize sess rest
            end
        end
  | CloserC :: _ => (Returned, [])
  end.

(** [updateTerminalSize]: [start] is what the first [term.GetWinsize(0)]
    returns, [site] the error of [ConnectToSite]. *)
Definition updateTerminalSize (L : SessionLib) (ns : NodeSession)
    (start : Winsize * option error) (site : option error)
    (rounds : list selected) : loop_exit * list event :=
  emit (EGetWinsize :: EConnectToSite :: logError site)
    (resizeLoop L ns (bool_decide (site = None)) start.1 None rounds).

(** ** scp *)

(** Collaborators of the file-transfer bridge: [trace.IsEOF] and what
    [scpCommand.Execute(ch)] returns. *)
Record Transfer : Type := {
  IsEOF : error → bool;
  Execute : option error
}.

(** [trace.IsEOF] of a possibly nil error. *)
Definition IsEOFNil (X : Transfer) (err : option error) : bool :=
  match err with Some e => IsEOF X e | None => false end.

Definition isNil (err : option error) : bool :=
  match err with Some _ => false | None => true end.

(** [scp] runs two threads over the one variable [err]: the function body
    and the goroutine it starts, which stores the result of [Execute] in
    [err].  The body does not wait for the goroutine before line 606
    ([<-closeC]), so its test and its store of lines 603-604 interleave
    with the goroutine's store. *)
Inductive thread : Type := Main | Copier.

(** Where the function body stands, from the goroutine's start on. *)
Inductive main_pc : Type :=
| AtRun        (* runErr := session.Run(shellCmd) *)
| AtTest       (* runErr != nil && err == nil *)
| AtAdopt      (* err = runErr, when the test held *)
| AtWait       (* <-closeC *)
| AtReturn     (* if trace.IsEOF(err) { err = nil }; return trace.Wrap(err) *)
| Done.

(** Where the goroutine stands. *)
Inductive copier_pc : Type :=
| AtExecute    (* err = scpCommand.Execute(ch) *)
| AtClose      (* log the error; stdin.Close(); close(closeC) *)
| Finished.

Record scp_state : Type := {
  shared_err : option error;
  runErr : option error;
  adopt : bool;
  main : main_pc;
  copier : copier_pc;
  returned : option (option error)
}.

(** One atomic step of a thread.  A thread that is blocked or has
    finished does not move. *)
Definition scp_step (X : Transfer) (T : Transport) (shellCmd : string)
    (st : scp_state) (t : thread) : scp_state :=
  match t with
  | Main =>
      match main st with
      | AtRun =>
          {| shared_err := shared_err st; runErr := Run T 0 shellCmd;
             adopt := adopt st; main := AtTest; copier := copier st;
             returned := returned st |}
      | AtTest =>
          {| shared_err := shared_err st; runErr := runErr st;
             adopt := negb (isNil (runErr st)) && isNil (shared_err st);
             main := AtAdopt; copier := copier st; returned := returned st |}
      | AtAdopt =>
          {| shared_err := if adopt st then runErr st else shared_err st;
             runErr := runErr st; adopt := adopt st; main := AtWait;
             copier := copier st; returned := returned st |}
      | AtWait =>
          match copier st with
          | Finished =>
              {| shared_err := shared_err st; runErr := runErr st;
                 adopt := adopt st; main := AtReturn; copier := copier st;
                 returned := returned st |}
          | _ => st
          end
      | AtReturn =>
          let err := if IsEOFNil X (shared_err st) then None else shared_err st in
          {| shared_err := err; runErr := runErr st; adopt := adopt st;
             main := Done; copier := copier st;
             returned := Some (WrapNil err) |}
      | Done => st
      end
  | Copier =>
      match copier st with
      | AtExecute =>
          {| shared_err := Execute X; runErr := runErr st; adopt := adopt st;
             main := main st; copier := AtClose; returned := returned st |}
      | AtClose =>
          {| shared_err := shared_err st; runErr := runErr st;
             adopt := adopt st; main := main st; copier := Finished;
             returned := returned st |}
      | Finished => st
      end
  end.

(** The state when the goroutine is started: [err] is the nil error of
    the last pipe call. *)
Definition scp_start : scp_state :=
  {| shared_err := None; runErr := None; adopt := false; main := AtRun;
     copier := AtExecute; returned := None |}.

(** [scp] under a schedule, which says which thread takes each step:
    [Some err] is the returned error ([Some None] is success), [None]
    means the schedule ends before the function returns. *)
Definition scp (X : Transfer) (T : Transport) (shellCmd : string)
    (schedule : list thread) : option (option error) :=
  match NewSession T 0 with
  | Some err => Some (Some (Wrap err))
  | None =>
  match StdinPipe T 0 with
  | Some err => Some (Some (Wrap err))
  | None =>
  match StdoutPipe T 0 with
  | Some err => Some (Some (Wrap err))
  | None => returned (foldl (scp_step X T shellCmd) scp_start schedule)
  end end end.

(** ** listenAndForward *)

(** What the listener and the remote side answer: [Accept n] is the
    outcome of the call number [n] of [socket.Accept()], nil when it
    yields a connection (which is then known by that number); [Dial n
    attempt] is the outcome of the dial of that attempt in the handler of
    connection [n]. *)
Record Forwarding : Type := {
  Accept : nat → option error;
  Dial : nat → Z → option error
}.

(** [time.Millisecond], in nanoseconds. *)
Definition Millisecond : Z := 1000000.

(** The [for attempt := 1; attempt <= 5; attempt++] loop of
    [proxyConnection] over the attempts still to make; [err] is the
    variable [err] of the handler. *)
Fixpoint dialAttempts (dial : Z → option error) (remoteAddr : string)
    (err : option error) (attempts : list Z) : option error * list event :=
  match attempts with
  | [] => (err, [])
  | attempt :: rest =>
      emit [EDial "tcp" remoteAddr]
      match dial attempt with
      | Some e =>
          emit [ELogErrorf "Connection attempt %v: %v" [AInt attempt; AError e];
                ESleep (Millisecond * (100 * attempt))]
            (dialAttempts dial remoteAddr (Some e) rest)
      | None => (None, [])
      end
  end.

(** [proxyConnection(incoming)]: the trace of the handler of connection
    [incoming].  The deferred closes run last, the outbound one first. *)
Definition proxyConnection (F : Forwarding) (remoteAddr : string)
    (incoming : nat) : list event :=
  let '(err, dialed) :=
    dialAttempts (Dial F incoming) remoteAddr None (seqZ 1 5) in
  dialed ++
  match err with
  | Some _ =>
      [ELogErrorf "Failed to connect to node %v" [AString remoteAddr];
       EClose "incoming"]
  | None =>
      [ECopy "incoming" "conn"; ECopy "conn" "incoming";
       EClose "conn"; EClose "incoming"]
  end.

(** What [listenAndForward] has done after some calls of [Accept]: the
    handlers it started, each with its connection and its own trace, the
    trace of the accept loop itself, and whether the loop has ended. *)
Record forwarded : Type := {
  handlers : list (nat * list event);
  listener : list event;
  ended : bool
}.

(** The accept loop from call number [n] on, observed for [calls] calls
    of [Accept]. *)
Fixpoint acceptLoop (F : Forwarding) (remoteAddr : string) (n calls : nat)
  : forwarded :=
  match calls with
  | O => {| handlers := []; listener := []; ended := false |}
  | S calls =>
      match Accept F n with
      | Some err =>
          {| handlers := [];
             listener := [ELogError err; EClose "client"; EClose "socket"];
             ended := true |}
      | None =>
          let later := acceptLoop F remoteAddr (S n) calls in
          {| handlers := (n, proxyConnection F remoteAddr n) :: handlers later;
             listener := EGo "proxyConnection" :: listener later;
             ended := ended later |}
      end
  end.

Definition listenAndForward (F : Forwarding) (remoteAddr : string)
    (calls : nat) : forwarded :=
  acceptLoop F remoteAddr 0 calls.

(** ** Vocabulary of the properties *)

Section TrialLoopVocabulary.
Variables (U : Utils) (T : Transport).
Variables (nodeAddress user : string) (localAddr fakeAddr : NetAddr).

(** The connection and the configuration of the attempt on session [n]. *)
Definition attemptConn (n : nat) : PipeNetConn :=
  {| conn_session := n; conn_local := localAddr; conn_remote := fakeAddr |}.

Definition attemptConfig (authMethod : AuthMethod) : ClientConfig :=
  {| User := user; Auth := [authMethod] |}.

(** What the secured-handshake negotiation of an attempt answers. *)
Definition handshake (n : nat) (authMethod : AuthMethod) : result SSHClient :=
  NewClientConn T (attemptConn n) nodeAddress (attemptConfig authMethod).

(** The events of one attempt, up to and including its negotiation. *)
Definition attemptEvents (n : nat) (authMethod : AuthMethod) : list event :=
  [ENewSession n; EStdinPipe n; EStdoutPipe n; EStderrPipe n;
   ERequestSubsystem n ("proxy:" +:+ nodeAddress);
   ENewClientConn (attemptConn n) nodeAddress (attemptConfig authMethod)].

(** The events of the attempts of [methods], all rejected, on the
    sessions from [n] on: each attempt, then the close of its session. *)
Fixpoint rejectedEvents (n : nat) (methods : list AuthMethod) : list event :=
  match methods with
  | [] => []
  | authMethod :: rest =>
      attemptEvents n authMethod ++ ECloseSession n :: rejectedEvents (S n) rest
  end.

(** The session [n] opens, gets its three pipes, and the relay accepts
    to route it to the node. *)
Definition reachesHandshake (n : nat) : Prop :=
  NewSession T n = None ∧ StdinPipe T n = None ∧ StdoutPipe T n = None
  ∧ StderrPipe T n = None
  ∧ RequestSubsystem T n ("proxy:" +:+ nodeAddress) = None.

(** The attempt of [authMethod] on session [n] gets to the negotiation,
    which fails with the handshake-failed error [err]. *)
Definition rejectedWith (n : nat) (authMethod : AuthMethod) (err : error) : Prop :=
  reachesHandshake n
  ∧ handshake n authMethod = Err err
  ∧ IsHandshakeFailedError U err = true.

(** Every method of [methods] is rejected, the one at index [i] on
    session [n + i]. *)
Definition allRejected (n : nat) (methods : list AuthMethod) : Prop :=
  ∀ i authMethod, methods !! i = Some authMethod →
    ∃ err, rejectedWith (n + i) authMethod err.
End TrialLoopVocabulary.

(** What follows the first [@] of a string, if it has one. *)
Fixpoint afterFirstAt (s : string) : option string :=
  match s with
  | EmptyString => None
  | String c rest => if Ascii.eqb c "@" then Some rest else afterFirstAt rest
  end.

(** The address that the access-denied error names according to the
    specification's words: the node address with a leading [<name>@]
    routing prefix stripped, that is, what follows the first [@]; an
    address without [@] is kept whole. *)
Definition stripRoutingPrefix (nodeAddress : string) : string :=
  default nodeAddress (afterFirstAt nodeAddress).

(** ** Example collaborators *)

(** The error under the [trace.Wrap] layers. *)
Fixpoint Cause (e : error) : error :=
  match e with
  | Wrap e' => Cause e'
  | _ => e
  end.

(** An error whose cause is the collaborator error with text [msg]. *)
Definition causedBy (msg : string) (e : error) : bool :=
  match Cause e with
  | ErrorString m => String.eqb m msg
  | _ => false
  end.

Definition exampleUtils : Utils :=
  {| IsHandshakeFailedError := causedBy "ssh: handshake failed";
     ParseAddr := λ s, Ok {| AddrNetwork := "tcp"; Addr := s |} |}.

(** A transport on which every operation succeeds; the negotiation
    accepts the credentials of [accepted], rejects the credential 0 with
    a protocol error and every other one with a handshake failure. *)
Definition exampleTransport (accepted : list nat) : Transport :=
  {| NewSession := λ _, None;
     StdinPipe := λ _, None;
     StdoutPipe := λ _, None;
     StderrPipe := λ _, None;
     RequestSubsystem := λ _ _, None;
     NewClientConn := λ conn _ config,
       match Auth config with
       | [Credential 0] => Err (ErrorString "ssh: unexpected message")
       | [Credential k] =>
           if bool_decide (k ∈ accepted) then Ok (Connection (conn_session conn))
           else Err (ErrorString "ssh: handshake failed")
       | _ => Err (ErrorString "ssh: handshake failed")
       end;
     RequestPty := λ _ _ _ _, None;
     StartShell := λ _, None;
     Setenv := λ _ _ _, None;
     Run := λ _ _, None |}.

Definition exampleProxy (methods : list nat) : ProxyClient :=
  {| hostLogin := "root";
     proxyAddress := "proxy.example.com:3023";
     authMethods := Credential <$> methods;
     siteName := EmptyString |}.

Definition exampleLocal : NetAddr :=
  {| AddrNetwork := "tcp"; Addr := "tcp://proxy.example.com:3023" |}.

Definition exampleNode (nodeAddress : string) : NetAddr :=
  {| AddrNetwork := "tcp"; Addr := "tcp://" +:+ nodeAddress |}.

Definition exampleSites : list Site :=
  [ {| Name := "east"; Routing := "a" |};
    {| Name := "west"; Routing := "b" |};
    {| Name := "west"; Routing := "c" |} ].

Section RetryVocabulary.
Variables (remoteAddr : string) (errs : Z → error).

(** The events of the failed dial number [attempt], whose error is
    [errs attempt]: the dial, the log line, and the backoff of
    [attempt] times 100ms. *)
Definition failedDial (attempt : Z) : list event :=
  [EDial "tcp" remoteAddr;
   ELogErrorf "Connection attempt %v: %v" [AInt attempt; AError (errs attempt)];
   ESleep (attempt * (100 * Millisecond))].

Definition failedDials (attempts : list Z) : list event :=
  attempts ≫= failedDial.
End RetryVocabulary.

(** The number of dials in a trace. *)
Fixpoint dialCount (trace : list event) : nat :=
  match trace with
  | [] => 0
  | EDial _ _ :: trace => S (dialCount trace)
  | _ :: trace => dialCount trace
  end.

(** What a handler does once its outbound connection is established. *)
Definition forwarding : list event :=
  [ECopy "incoming" "conn"; ECopy "conn" "incoming";
   EClose "conn"; EClose "incoming"].

(** A listener that accepts every connection; the dials of connection 0
    always fail, those of connection 1 succeed at the third attempt, and
    those of the others succeed at once. *)
Definition exampleForwarding : Forwarding :=
  {| Accept := λ _, None;
     Dial := λ incoming attempt,
       match incoming with
       | 0 => Some (ErrorString "connection refused")
       | 1 => if (attempt <? 3)%Z then Some (ErrorString "connection refused")
              else None
       | _ => None
       end |}.

(** A transport that refuses both the pseudo-terminal and the shell. *)
Definition exampleRefusing : Transport :=
  {| NewSession := λ _, None;
     StdinPipe := λ _, None;
     StdoutPipe := λ _, None;
     StderrPipe := λ _, None;
     RequestSubsystem := λ _ _, None;
     NewClientConn := λ _ _ _, Err (ErrorString "ssh: handshake failed");
     RequestPty := λ _ _ _ _, Some (ErrorString "pty refused");
     StartShell := λ _, Some (ErrorString "shell refused");
     Setenv := λ _ _ _, None;
     Run := λ _ _, Some (ErrorString "Process exited with status 1") |}.

(** [uint16(n)] *)
Definition uint16 (n : Z) : N := Z.to_N (n `mod` 65536).

(** A reading of the two declarations for the examples: the geometry of
    a session converted field by field to 16 bits. *)
Definition exampleSessionLib : SessionLib :=
  {| SessionEnvVar := "TELEPORT_SESSION";
     ParamsWinsize := λ p, {| Height := uint16 (H p); Width := uint16 (W p) |} |}.

(** A local machine with a terminal of 80 columns and 25 rows. *)
Definition exampleHost : Host :=
  {| GetWinsize := ({| Height := 25; Width := 80 |}, None);
     SetRawTerminal := None;
     SetWinsize := λ _, None;
     Getenv := λ name, if String.eqb name "LANG" then "en_US.UTF-8" else EmptyString;
     NewID := "6a7b8c9d" |}.

Definition exampleNodeClient : NodeClient :=
  {| Client := Connection 1; Proxy := exampleProxy [1; 2] |}.

(** A session of 120 columns and 40 rows. *)
Definition exampleJoined : Session :=
  {| ID := "0f1e2d3c"; Params := {| W := 120; H := 40 |}; Parties := ["alice"] |}.

Definition exampleNodeSession : NodeSession :=
  {| id := "0f1e2d3c"; env := ∅; attachedTerm := true;
     terminalSize := {| Height := 40; Width := 120 |};
     serverSession := 0; nodeClient := exampleNodeClient |}.

(** The events of the environment loops of [newSession]. *)
Definition isEnvEvent (ev : event) : bool :=
  match ev with
  | EGetenv _ | ESetenv _ _ _ | ELogWarn _ => true
  | _ => false
  end.

(** The events that query or change the local terminal. *)
Definition touchesTerminal (ev : event) : bool :=
  match ev with
  | EGetWinsize | ESetRawTerminal | ERestoreTerminal | ESetWinsize _
  | EStdoutWrite _ => true
  | _ => false
  end.

(** The session [exampleJoined] while it still was 80 columns by 25 rows. *)
Definition exampleBefore : Session :=
  {| ID := "0f1e2d3c"; Params := {| W := 80; H := 25 |}; Parties := ["alice"] |}.

(** Rounds of the resize loop on a terminal of 80 by 25: a first tick
    records the session at 80 by 25; a second tick finds that a party has
    made it 120 by 40, and the loop resizes the local terminal; the
    operating system signals that resize, and the terminal is read at 120
    by 40; a second signal arrives with the size unchanged. *)
Definition exampleRounds : list selected :=
  [TickC (Ok (Some exampleBefore)) ({| Height := 25; Width := 80 |}, None) None;
   TickC (Ok (Some exampleJoined)) ({| Height := 25; Width := 80 |}, None) None;
   SigC true ({| Height := 40; Width := 120 |}, None) None;
   SigC true ({| Height := 40; Width := 120 |}, None) None].

(** The window-change requests of a trace, in order. *)
Definition windowChanges (trace : list event) : list (N * N) :=
  trace ≫= λ ev, match ev with EWindowChange _ w h => [(w, h)] | _ => [] end.

(** The sizes the loop itself gave the local terminal, in order. *)
Definition resizes (trace : list event) : list Winsize :=
  trace ≫= λ ev, match ev with ESetWinsize ws => [ws] | _ => [] end.

(** A transfer whose protocol side ends with the end-of-stream error. *)
Definition exampleTransfer : Transfer :=
  {| IsEOF := causedBy "EOF"; Execute := Some (ErrorString "EOF") |}.

(** The schedule in which the goroutine stores its result between the
    test and the store of lines 603-604. *)
Definition racingSchedule : list thread :=
  [Main; Main; Copier; Main; Copier; Main; Main].

(** A schedule in which the goroutine has finished when [session.Run]
    returns. *)
Definition sequentialSchedule : list thread :=
  [Copier; Copier; Main; Main; Main; Main; Main].

(** Invariants of the two threads of [scp]. *)

(** The function has returned once it stands at [Done]. *)
Definition returns_at_Done (st : scp_state) : Prop :=
  main st = Done → is_Some (returned st).

(** The goroutine has stored the end-of-stream error [eof], and the body
    has not replaced it nor will. *)
Definition eof_kept (eof : error) (st : scp_state) : Prop :=
  copier st ≠ AtExecute
  ∧ match main st with
    | AtAdopt => shared_err st = Some eof ∧ adopt st = false ∧ returned st = None
    | Done => returned st = Some None
    | _ => shared_err st = Some eof ∧ returned st = None
    end.

(** ** Vocabulary of the further properties *)

(** The sessions that a trace asks the transport to open, those it
    closes, and the negotiations it starts (the session of each and the
    methods its configuration offers), in order. *)
Definition sessionsAsked (trace : list event) : list nat :=
  trace ≫= λ ev, match ev with ENewSession s => [s] | _ => [] end.

Definition sessionsClosed (trace : list event) : list nat :=
  trace ≫= λ ev, match ev with ECloseSession s => [s] | _ => [] end.

Definition negotiations (trace : list event) : list (nat * list AuthMethod) :=
  trace ≫= λ ev, match ev with
                 | ENewClientConn conn _ config => [(conn_session conn, Auth config)]
                 | _ => []
                 end.

(** Transports on which every credential is rejected with a handshake
    failure; on the first the relay refuses to route session 1, on the
    second the output pipe of session 1 cannot be set up. *)
Definition exampleUnroutable : Transport :=
  {| NewSession := λ _, None;
     StdinPipe := λ _, None;
     StdoutPipe := λ _, None;
     StderrPipe := λ _, None;
     RequestSubsystem := λ s _,
       if decide (s = 1) then Some (ErrorString "ssh: subsystem request failed")
       else None;
     NewClientConn := λ _ _ _, Err (ErrorString "ssh: handshake failed");
     RequestPty := λ _ _ _ _, None;
     StartShell := λ _, None;
     Setenv := λ _ _ _, None;
     Run := λ _ _, None |}.

Definition exampleNoPipe : Transport :=
  {| NewSession := λ _, None;
     StdinPipe := λ _, None;
     StdoutPipe := λ s, if decide (s = 1) then Some (ErrorString "EOF") else None;
     StderrPipe := λ _, None;
     RequestSubsystem := λ _ _, None;
     NewClientConn := λ _ _ _, Err (ErrorString "ssh: handshake failed");
     RequestPty := λ _ _ _ _, None;
     StartShell := λ _, None;
     Setenv := λ _ _ _, Some (ErrorString "ssh: setenv failed");
     Run := λ _ _, None |}.

(** ** GetSites, ConnectToSite and FindServersByLabels *)

(** [services.Server]: client.go reads no field of it; a node is told
    from another by its name. *)
Record Server : Type := { Hostname : string }.

(** The auth server client that [auth.NewClient] builds over the
    connection of a node client. *)
Inductive AuthClient : Type := AuthClientOver (nodeClient : NodeClient).

(** What the cluster side answers:
    - [Listing]: what the [proxysites] subsystem writes up to its end of
      stream, [None] when [teleport.DefaultTimeout] elapses first;
    - [Unmarshal]: [json.Unmarshal] of that output into a list of sites;
    - [NewAuthClient]: the error of [auth.NewClient];
    - [GetNodes]: what [site.GetNodes()] returns;
    - [MatchAgainst]: the method [Server.MatchAgainst], whose code is in
      another package. *)
Record Control : Type := {
  Listing : option string;
  Unmarshal : string → result (list Site);
  NewAuthClient : NodeClient → option error;
  GetNodes : AuthClient → result (list Server);
  MatchAgainst : Server → gmap string string → bool
}.

(** [GetSites], its session being session [n] of the proxy connection. *)
Definition GetSites (T : Transport) (C : Control) (n : nat)
  : result (list Site) * list event :=
  emit [ENewSession n]
  match NewSession T n with
  | Some err => (Err (Wrap err), [])
  | None =>
  emit [EStdoutPipe n]
  match StdoutPipe T n with
  | Some err => (Err (Wrap err), [])
  | None =>
  emit [EGo "io.Copy(stdout, reader)"; ERequestSubsystem n "proxysites"]
  match RequestSubsystem T n "proxysites" with
  | Some err => (Err (Wrap err), [])
  | None =>
      match Listing C with
      | None => (Err (Errorf "timeout" []), [])
      | Some stdout =>
          match Unmarshal C stdout with
          | Err err => (Err (Wrap err), [])
          | Ok sites => (Ok sites, [])
          end
      end
  end end end.

(** [ConnectToNode] on a proxy connection on which [n] sessions were
    opened before. *)
Definition ConnectToNodeFrom (n : nat) (U : Utils) (T : Transport)
    (proxy : ProxyClient) (nodeAddress user : string)
  : result NodeClient * list event :=
  let e := Errorf "unknown Error" [] in
  match ParseAddr U ("tcp://" +:+ proxyAddress proxy) with
  | Err err => (Err (Wrap err), [])
  | Ok localAddr =>
      match ParseAddr U ("tcp://" +:+ nodeAddress) with
      | Err err => (Err (Wrap err), [])
      | Ok fakeAddr =>
          tryAuthMethods U T proxy nodeAddress user localAddr fakeAddr
            e n (authMethods proxy)
      end
  end.

(** [ConnectToSite]: [getSite] (which lists the sites on session 0), then
    [ConnectToNode] to the address [@<site name>] with the proxy's host
    login, then [auth.NewClient] over the node client. *)
Definition ConnectToSite (U : Utils) (T : Transport) (C : Control)
    (proxy : ProxyClient) : result AuthClient * list event :=
  let '(sites, listed) := GetSites T C 0 in
  match getSite proxy sites with
  | Err err => (Err (Wrap err), listed)
  | Ok site =>
      let '(nodeClient, connected) :=
        ConnectToNodeFrom 1 U T proxy ("@" +:+ Name site) (hostLogin proxy) in
      match nodeClient with
      | Err err => (Err (Wrap err), listed ++ connected ++ [ELogError err])
      | Ok nodeClient =>
          match NewAuthClient C nodeClient with
          | Some err => (Err (Wrap err), listed ++ connected)
          | None => (Ok (AuthClientOver nodeClient), listed ++ connected)
          end
      end
  end.

(** The [for _, node := range siteNodes] loop of [FindServersByLabels];
    [nodes] is the slice built so far. *)
Fixpoint matchNodes (C : Control) (labels : gmap string string)
    (nodes siteNodes : list Server) : list Server :=
  match siteNodes with
  | [] => nodes
  | node :: rest =>
      if MatchAgainst C node labels
      then matchNodes C labels (nodes ++ [node]) rest
      else matchNodes C labels nodes rest
  end.

(** [FindServersByLabels]. *)
Definition FindServersByLabels (U : Utils) (T : Transport) (C : Control)
    (proxy : ProxyClient) (labels : gmap string string)
  : result (list Server) * list event :=
  let nodes := [] in
  let '(site, connected) := ConnectToSite U T C proxy in
  match site with
  | Err err => (Err (Wrap err), connected)
  | Ok site =>
      match GetNodes C site with
      | Err err => (Err (Wrap err), connected)
      | Ok siteNodes => (Ok (matchNodes C labels nodes siteNodes), connected)
      end
  end.

(** A cluster side that lists [exampleSites], builds its client and knows
    three nodes, of which those whose name starts with [db] match. *)
Definition exampleControl : Control :=
  {| Listing := Some "[east, west, west]";
     Unmarshal := λ _, Ok exampleSites;
     NewAuthClient := λ _, None;
     GetNodes := λ _, Ok [ {| Hostname := "db1" |}; {| Hostname := "web1" |};
                          {| Hostname := "db2" |} ];
     MatchAgainst := λ node _, String.prefix "db" (Hostname node) |}.

(** The relay lists [sites]: the listing session opens, gets its output
    pipe, the relay accepts the [proxysites] request, and the output ends
    before the timeout and parses to [sites]. *)
Definition lists (T : Transport) (C : Control) (sites : list Site) : Prop :=
  NewSession T 0 = None ∧ StdoutPipe T 0 = None
  ∧ RequestSubsystem T 0 "proxysites" = None
  ∧ ∃ stdout, Listing C = Some stdout ∧ Unmarshal C stdout = Ok sites.

(** The events of a listing that gets to the [proxysites] request. *)
Definition listingEvents : list event :=
  [ENewSession 0; EStdoutPipe 0; EGo "io.Copy(stdout, reader)";
   ERequestSubsystem 0 "proxysites"].

(** A cluster side whose listing never ends. *)
Definition exampleSilent : Control :=
  {| Listing := None;
     Unmarshal := λ _, Ok [];
     NewAuthClient := λ _, None;
     GetNodes := λ _, Ok [];
     MatchAgainst := λ _ _, true |}.

(** A local machine without a terminal. *)
Definition exampleNoTerminal : Host :=
  {| GetWinsize := ({| Height := 0; Width := 0 |},
                    Some (ErrorString "inappropriate ioctl for device"));
     SetRawTerminal := Some (ErrorString "inappropriate ioctl for device");
     SetWinsize := λ _, Some (ErrorString "inappropriate ioctl for device");
     Getenv := λ _, EmptyString;
     NewID := "6a7b8c9d" |}.

(** The environment variables that a trace asks the server to set, in
    order. *)
Definition setenvs (trace : list event) : list (string * string) :=
  trace ≫= λ ev, match ev with ESetenv _ key val => [(key, val)] | _ => [] end.

(** The language variables that are set on the local machine, with their
    values. *)
Definition langVars (O : Host) : list (string * string) :=
  filter (λ kv, kv.2 ≠ EmptyString)
    [("LANG", Getenv O "LANG"); ("LANGUAGE", Getenv O "LANGUAGE")].

(** The pseudo-terminal and the three pipes of the session of [ns] are
    all granted. *)
Definition terminalGranted (T : Transport) (ns : NodeSession) : Prop :=
  RequestPty T (serverSession ns) "xterm"
    (Z.of_N (Height (terminalSize ns))) (Z.of_N (Width (terminalSize ns))) = None
  ∧ StdinPipe T (serverSession ns) = None
  ∧ StdoutPipe T (serverSession ns) = None
  ∧ StderrPipe T (serverSession ns) = None.

(** The rounds that end the resize loop: a receive from [closer.C] and a
    nil signal. *)
Definition stops (round : selected) : bool :=
  match round with
  | CloserC | SigC false _ _ => true
  | _ => false
  end.

(** A signal that is not nil. *)
Definition liveSignal (round : selected) : bool :=
  match round with
  | SigC true _ _ => true
  | _ => false
  end.

Definition isTick (round : selected) : bool :=
  match round with
  | TickC _ _ _ => true
  | _ => false
  end.

(** * Properties *)

(** ** Cluster selection *)

Lemma findSite_Some name sites site :
  findSite name sites = Some site →
  Name site = name ∧
  ∃ before after, sites = before ++ site :: after
    ∧ Forall (λ s, Name s ≠ name) before.
Proof.
  induction sites as [|s sites IH]; simpl; [discriminate|].
  destruct (decide (Name s = name)) as [Hs|Hs].
  - intros [= <-]. split; [done|]. by exists [], sites.
  - intros Hfind. destruct (IH Hfind) as (Hname & before & after & -> & Hbefore).
    split; [done|]. exists (s :: before), after. split; [done|].
    by constructor.
Qed.

Lemma findSite_None name sites :
  Forall (λ s, Name s ≠ name) sites → findSite name sites = None.
Proof.
  induction 1 as [|s sites Hs _ IH]; simpl; [done|].
  by destruct (decide (Name s = name)).
Qed.

Lemma findSite_elem name sites site :
  site ∈ sites → Name site = name → is_Some (findSite name sites).
Proof.
  intros Hin Hname. induction sites as [|s sites IH]; simpl.
  - by apply elem_of_nil in Hin.
  - destruct (decide (Name s = name)); [by eexists|].
    apply elem_of_cons in Hin as [->|Hin]; [done|auto].
Qed.

(** C4.  Cluster selection on the list the relay returned: an empty list
    gives the not-found error whatever name is configured; a list that is
    not empty and no configured name give the first record; a configured
    name gives the first record of exactly that name, and the not-found
    error that names it when no record has it. *)
Theorem getSite_selects (proxy : ProxyClient) (sites : list Site) :
  (sites = [] →
     getSite proxy (Ok sites) = Err (NotFound "no sites registered" []))
  ∧ (∀ site0 rest, sites = site0 :: rest → siteName proxy = EmptyString →
       getSite proxy (Ok sites) = Ok site0)
  ∧ (sites ≠ [] → siteName proxy ≠ EmptyString →
       (∀ site, site ∈ sites → Name site = siteName proxy →
          ∃ found before after,
            getSite proxy (Ok sites) = Ok found
            ∧ Name found = siteName proxy
            ∧ sites = before ++ found :: after
            ∧ Forall (λ s, Name s ≠ siteName proxy) before)
       ∧ ((∀ site, site ∈ sites → Name site ≠ siteName proxy) →
            getSite proxy (Ok sites)
            = Err (NotFound "site %v not found" [AString (siteName proxy)]))).
Proof.
  split; [|split].
  - by intros ->.
  - intros site0 rest -> Hname. simpl. by destruct (decide (siteName proxy = EmptyString)).
  - intros Hsites Hname. destruct sites as [|site0 rest]; [done|].
    unfold getSite. destruct (decide (siteName proxy = EmptyString)); [done|].
    split.
    + intros site Hin Hsite.
      destruct (findSite_elem _ _ _ Hin Hsite) as [found Hfound].
      rewrite Hfound.
      destruct (findSite_Some _ _ _ Hfound) as (? & before & after & ? & ?).
      by exists found, before, after.
    + intros Hnone. rewrite findSite_None; [done|].
      apply Forall_forall. intros s Hs. by apply Hnone.
Qed.

Lemma getSite_selects_witness :
  getSite (exampleProxy []) (Ok exampleSites)
  = Ok {| Name := "east"; Routing := "a" |}.
Proof.
  exact (proj1 (proj2 (getSite_selects (exampleProxy []) exampleSites))
           _ _ eq_refl eq_refl).
Defined.

(** ** The credential trial loop *)

Lemma emit_emit {A : Type} (evs1 evs2 : list event) (r : A * list event) :
  emit evs1 (emit evs2 r) = emit (evs1 ++ evs2) r.
Proof. unfold emit. simpl. by rewrite app_assoc. Qed.

Lemma emit_nil {A : Type} (r : A * list event) : emit [] r = r.
Proof. by destruct r. Qed.

Lemma emit_pair {A : Type} (evs : list event) (a : A) (later : list event) :
  emit evs (a, later) = (a, evs ++ later).
Proof. done. Qed.

Section TrialLoop.
Variables (U : Utils) (T : Transport) (proxy : ProxyClient).
Variables (nodeAddress user : string) (localAddr fakeAddr : NetAddr).

Local Abbreviation try :=
  (tryAuthMethods U T proxy nodeAddress user localAddr fakeAddr).
Local Abbreviation tried := (attemptEvents nodeAddress user localAddr fakeAddr).
Local Abbreviation negotiate := (handshake T nodeAddress user localAddr fakeAddr).
Local Abbreviation rejections :=
  (rejectedEvents nodeAddress user localAddr fakeAddr).
Local Abbreviation rejected :=
  (rejectedWith U T nodeAddress user localAddr fakeAddr).
Local Abbreviation all_rejected :=
  (allRejected U T nodeAddress user localAddr fakeAddr).

(** One round of the loop whose session gets to the negotiation. *)
Lemma try_reaches e n authMethod rest :
  reachesHandshake T nodeAddress n →
  try e n (authMethod :: rest)
  = emit (tried n authMethod)
      match negotiate n authMethod with
      | Err err =>
          if IsHandshakeFailedError U err
          then emit [ECloseSession n] (try (Wrap err) (S n) rest)
          else (Err (Wrap err), [])
      | Ok client => (Ok {| Client := client; Proxy := proxy |}, [])
      end.
Proof.
  intros (Hnew & Hin & Hout & Herr & Hsub). simpl.
  rewrite Hnew, Hin, Hout, Herr, Hsub.
  by rewrite !emit_emit.
Qed.

Lemma all_rejected_cons n authMethod methods :
  all_rejected n (authMethod :: methods) →
  (∃ err, rejected n authMethod err) ∧ all_rejected (S n) methods.
Proof.
  intros Hall. split.
  - destruct (Hall 0 authMethod eq_refl) as [err Herr].
    exists err. by rewrite Nat.add_0_r in Herr.
  - intros i a Hi. destruct (Hall (S i) a Hi) as [err Herr].
    exists err. by rewrite Nat.add_succ_r in Herr.
Qed.

(** A prefix of rejected methods is tried in order, each session being
    closed before the next is opened; the loop then goes on with the
    rest, [e] being the wrapped rejection of the last of them. *)
Lemma try_rejected pre : ∀ e n rest,
  all_rejected n pre →
  ∃ e', try e n (pre ++ rest)
        = emit (rejections n pre) (try e' (n + length pre) rest)
    ∧ match last pre with
      | None => e' = e
      | Some authMethod =>
          ∃ err, rejected (n + length pre - 1) authMethod err ∧ e' = Wrap err
      end.
Proof.
  induction pre as [|authMethod pre IH]; intros e n rest Hall.
  - exists e. simpl. by rewrite Nat.add_0_r, emit_nil.
  - apply all_rejected_cons in Hall as [[err Herr] Hall].
    destruct (IH (Wrap err) (S n) rest Hall) as (e' & Htry & Hlast).
    exists e'. split.
    + pose proof Herr as (Hreach & Hneg & Hhf).
      change ((authMethod :: pre) ++ rest) with (authMethod :: (pre ++ rest)).
      rewrite (try_reaches _ _ _ _ Hreach), Hneg, Hhf, Htry.
      rewrite !emit_emit. simpl length.
      replace (n + S (length pre)) with (S n + length pre) by lia.
      f_equal.
    + destruct pre as [|authMethod' pre'].
      * simpl in *. subst e'. exists err. split; [|done].
        by replace (n + 1 - 1) with n by lia.
      * rewrite last_cons_cons.
        destruct (last (authMethod' :: pre')) as [final|] eqn:Hfinal;
          [|by apply last_None in Hfinal].
        destruct Hlast as (err' & Hrej & ->). exists err'. split; [|done].
        simpl length in *.
        by replace (n + S (S (length pre')) - 1)
          with (S n + S (length pre') - 1) by lia.
Qed.

Hypothesis parsed_local :
  ParseAddr U ("tcp://" +:+ proxyAddress proxy) = Ok localAddr.
Hypothesis parsed_node : ParseAddr U ("tcp://" +:+ nodeAddress) = Ok fakeAddr.

Lemma ConnectToNode_parsed :
  ConnectToNode U T proxy nodeAddress user
  = try (Errorf "unknown Error" []) 0 (authMethods proxy).
Proof. unfold ConnectToNode. by rewrite parsed_local, parsed_node. Qed.

(** C1.  The configured methods are tried strictly in order, one at a
    time.  When the methods before [authMethod] are all rejected with a
    handshake-failed error, each of their sessions is closed before the
    next method is tried, and then: if the negotiation of [authMethod]
    succeeds, the node client over that very connection is returned and
    nothing more is tried; if it fails with any other error, that error
    is returned at once and nothing more is tried; if it fails with a
    handshake-failed error, its session is closed and the next method,
    if any, is tried on a new session. *)
Theorem ConnectToNode_trial_order (pre post : list AuthMethod)
    (authMethod : AuthMethod) :
  authMethods proxy = pre ++ authMethod :: post →
  all_rejected 0 pre →
  reachesHandshake T nodeAddress (length pre) →
  let k := length pre in
  let attempts := rejections 0 pre ++ tried k authMethod in
  (∀ client, negotiate k authMethod = Ok client →
     ConnectToNode U T proxy nodeAddress user
     = (Ok {| Client := client; Proxy := proxy |}, attempts))
  ∧ (∀ err, negotiate k authMethod = Err err →
       IsHandshakeFailedError U err = false →
       ConnectToNode U T proxy nodeAddress user = (Err (Wrap err), attempts))
  ∧ (∀ err, negotiate k authMethod = Err err →
       IsHandshakeFailedError U err = true →
       ∃ outcome later,
         ConnectToNode U T proxy nodeAddress user
         = (outcome, attempts ++ ECloseSession k :: later)
         ∧ (∀ next post', post = next :: post' →
              head later = Some (ENewSession (S k)))).
Proof.
  intros Hmethods Hpre Hreach k attempts. subst k attempts.
  rewrite ConnectToNode_parsed, Hmethods.
  destruct (try_rejected pre (Errorf "unknown Error" []) 0
              (authMethod :: post) Hpre) as (e' & -> & _).
  simpl Nat.add. rewrite (try_reaches _ _ _ _ Hreach), emit_emit.
  split; [|split].
  - intros client ->. by rewrite emit_pair, app_nil_r.
  - intros err -> ->. by rewrite emit_pair, app_nil_r.
  - intros err -> ->. rewrite emit_emit.
    destruct (try (Wrap err) (S (length pre)) post)
      as [outcome later] eqn:Hlater.
    exists outcome, later. split.
    + by rewrite emit_pair, <- app_assoc.
    + intros next post' ->. simpl in Hlater.
      unfold emit in Hlater at 1. simpl in Hlater. by injection Hlater as _ <-.
Qed.
End TrialLoop.

Lemma ConnectToNode_trial_order_witness :
  ConnectToNode exampleUtils (exampleTransport [2]) (exampleProxy [1; 2; 3])
    "node1:3022@east" "root"
  = (Ok {| Client := Connection 1; Proxy := exampleProxy [1; 2; 3] |},
     rejectedEvents "node1:3022@east" "root" exampleLocal
       (exampleNode "node1:3022@east") 0 [Credential 1]
     ++ attemptEvents "node1:3022@east" "root" exampleLocal
          (exampleNode "node1:3022@east") 1 (Credential 2)).
Proof.
  refine (proj1 (ConnectToNode_trial_order exampleUtils (exampleTransport [2])
                   (exampleProxy [1; 2; 3]) "node1:3022@east" "root"
                   exampleLocal (exampleNode "node1:3022@east")
                   eq_refl eq_refl [Credential 1] [Credential 3] (Credential 2)
                   eq_refl _ _) (Connection 1) eq_refl).
  - intros [|i] a [=]. subst a.
    exists (ErrorString "ssh: handshake failed"). by repeat split.
  - by repeat split.
Defined.

(** ** The trial loop exhausted *)

Lemma Split_cons (s : string) (sep : ascii) :
  ∃ piece pieces, Split s sep = piece :: pieces.
Proof.
  induction s as [|c s (piece & pieces & IH)]; simpl; [by eexists _, _|].
  destruct (Ascii.eqb c sep); [by eexists _, _|].
  rewrite IH. by eexists _, _.
Qed.

(** [parts[0]] of an address without [@] is the address. *)
Lemma first_part_whole (s : string) :
  afterFirstAt s = None → first_part (Split s "@") = s.
Proof.
  induction s as [|c s IH]; simpl; [done|].
  destruct (Ascii.eqb c "@"); [done|]. intros Hs.
  destruct (Split_cons s "@") as (piece & pieces & Hsplit).
  specialize (IH Hs). rewrite Hsplit in IH |- *.
  unfold first_part in *. simpl in *. by rewrite IH.
Qed.

(** [parts[0]] of [host@rest] is [host], when [host] has no [@]. *)
Lemma first_part_host (host rest : string) :
  afterFirstAt host = None →
  first_part (Split (host +:+ "@" +:+ rest) "@") = host.
Proof.
  change ("@" +:+ rest) with (String "@" rest).
  induction host as [|c host IH]; simpl; [done|].
  destruct (Ascii.eqb c "@"); [done|]. intros Hhost.
  destruct (Split_cons (host +:+ String "@" rest) "@") as (piece & pieces & Hsplit).
  specialize (IH Hhost). rewrite Hsplit in IH |- *.
  unfold first_part in *. simpl in *. by rewrite IH.
Qed.

Section TrialLoopExhausted.
Variables (U : Utils) (T : Transport) (proxy : ProxyClient).
Variables (nodeAddress user : string) (localAddr fakeAddr : NetAddr).

Hypothesis parsed_local :
  ParseAddr U ("tcp://" +:+ proxyAddress proxy) = Ok localAddr.
Hypothesis parsed_node : ParseAddr U ("tcp://" +:+ nodeAddress) = Ok fakeAddr.

(** C2, amended.  When at least one method is configured and every
    method is rejected with a handshake-failed error (which stays one
    under [trace.Wrap]), the error returned is the access-denied error
    that names the login user and [parts[0]] of the node address split
    at [@]: the address up to its first [@], that is, without the
    [@<cluster>] suffix, and the whole address when it has no [@].  Its
    cause is the wrapped rejection of the last method. *)
Theorem ConnectToNode_access_denied :
  authMethods proxy ≠ [] →
  allRejected U T nodeAddress user localAddr fakeAddr 0 (authMethods proxy) →
  (∀ err, IsHandshakeFailedError U err = true →
          IsHandshakeFailedError U (Wrap err) = true) →
  ∃ named authMethod err,
    ConnectToNode U T proxy nodeAddress user
    = (Err (Errorf access_denied_format
              [AString user; AString named; AError (Wrap err)]),
       rejectedEvents nodeAddress user localAddr fakeAddr 0 (authMethods proxy))
    ∧ last (authMethods proxy) = Some authMethod
    ∧ rejectedWith U T nodeAddress user localAddr fakeAddr
        (length (authMethods proxy) - 1) authMethod err
    ∧ named = first_part (Split nodeAddress "@")
    ∧ (afterFirstAt nodeAddress = None → named = nodeAddress)
    ∧ (∀ host cluster, nodeAddress = host +:+ "@" +:+ cluster →
         afterFirstAt host = None → named = host).
Proof.
  intros Hsome Hall Hwrap.
  rewrite (ConnectToNode_parsed U T proxy nodeAddress user localAddr fakeAddr
             parsed_local parsed_node).
  destruct (try_rejected U T proxy nodeAddress user localAddr fakeAddr
              (authMethods proxy) (Errorf "unknown Error" []) 0 [] Hall)
    as (e' & Htry & Hlast).
  rewrite app_nil_r in Htry. rewrite Htry.
  destruct (last (authMethods proxy)) as [authMethod|] eqn:Hfinal;
    [|by apply last_None in Hfinal].
  destruct Hlast as (err & Hrej & ->).
  exists (first_part (Split nodeAddress "@")), authMethod, err.
  split; [|split; [done|split; [done|split; [done|split]]]].
  - simpl. rewrite (Hwrap err) by apply Hrej.
    by rewrite emit_pair, app_nil_r.
  - apply first_part_whole.
  - intros host cluster -> Hhost. by apply first_part_host.
Qed.

(** C9.  With no authentication method configured, and the addresses
    parsed, [ConnectToNode] touches the relay connection not at all and
    returns the placeholder error "unknown Error", which is no
    access-denied error (the placeholder being no handshake-failed
    error). *)
Theorem ConnectToNode_no_methods :
  authMethods proxy = [] →
  IsHandshakeFailedError U (Errorf "unknown Error" []) = false →
  ConnectToNode U T proxy nodeAddress user
  = (Err (Errorf "unknown Error" []), [])
  ∧ ∀ args, (ConnectToNode U T proxy nodeAddress user).1
            ≠ Err (Errorf access_denied_format args).
Proof.
  intros Hnone Hplaceholder.
  rewrite (ConnectToNode_parsed U T proxy nodeAddress user localAddr fakeAddr
             parsed_local parsed_node), Hnone.
  simpl. rewrite Hplaceholder. split; [done|].
  intros args [=].
Qed.
End TrialLoopExhausted.

Lemma ConnectToNode_access_denied_witness :
  ∃ named err,
    ConnectToNode exampleUtils (exampleTransport []) (exampleProxy [1; 2])
      "node1:3022@east" "root"
    = (Err (Errorf access_denied_format
              [AString "root"; AString named; AError (Wrap err)]),
       rejectedEvents "node1:3022@east" "root" exampleLocal
         (exampleNode "node1:3022@east") 0 [Credential 1; Credential 2])
    ∧ named = "node1:3022".
Proof.
  destruct (ConnectToNode_access_denied exampleUtils (exampleTransport [])
              (exampleProxy [1; 2]) "node1:3022@east" "root"
              exampleLocal (exampleNode "node1:3022@east") eq_refl eq_refl)
    as (named & authMethod & err & Hrun & _ & _ & _ & _ & Hhost).
  - done.
  - intros [|[|i]] a [=]; subst a;
      exists (ErrorString "ssh: handshake failed"); by repeat split.
  - by intros err.
  - exists named, err. split; [exact Hrun|].
    exact (Hhost "node1:3022" "east" eq_refl eq_refl).
Defined.

(** C2 as stated fails: for the address [node1:3022@east] the leading
    [<name>@] prefix is [node1:3022@], and the error names [node1:3022],
    not [east]. *)
Lemma ConnectToNode_access_denied_counterexample :
  allRejected exampleUtils (exampleTransport []) "node1:3022@east" "root"
    exampleLocal (exampleNode "node1:3022@east") 0
    (authMethods (exampleProxy [1; 2]))
  ∧ stripRoutingPrefix "node1:3022@east" = "east"
  ∧ ∀ cause,
      (ConnectToNode exampleUtils (exampleTransport []) (exampleProxy [1; 2])
         "node1:3022@east" "root").1
      ≠ Err (Errorf access_denied_format
               [AString "root"; AString (stripRoutingPrefix "node1:3022@east");
                AError cause]).
Proof.
  split; [|split; [done|]].
  - intros [|[|i]] a [=]; subst a;
      exists (ErrorString "ssh: handshake failed"); by repeat split.
  - intros cause. vm_compute. intros [=].
Qed.

Lemma ConnectToNode_no_methods_witness :
  ConnectToNode exampleUtils (exampleTransport [2]) (exampleProxy [])
    "node1:3022@east" "root"
  = (Err (Errorf "unknown Error" []), []).
Proof.
  exact (proj1 (ConnectToNode_no_methods exampleUtils (exampleTransport [2])
                  (exampleProxy []) "node1:3022@east" "root"
                  exampleLocal (exampleNode "node1:3022@east")
                  eq_refl eq_refl eq_refl eq_refl)).
Defined.

(** ** The port-forward relay *)

Section DialRetry.
Variables (dial : Z → option error) (remoteAddr : string) (errs : Z → error).

Lemma dialAttempts_failed (attempts rest : list Z) (err : option error) :
  Forall (λ i, dial i = Some (errs i)) attempts →
  dialAttempts dial remoteAddr err (attempts ++ rest)
  = emit (failedDials remoteAddr errs attempts)
      (dialAttempts dial remoteAddr
         (from_option (λ i, Some (errs i)) err (last attempts)) rest).
Proof.
  intros Hfailed. revert err.
  induction Hfailed as [|i attempts Hi _ IH]; intros err.
  - by rewrite emit_nil.
  - simpl. rewrite Hi, IH, !emit_emit. f_equal.
    + unfold failedDials. simpl. unfold failedDial at 1, Millisecond.
      do 3 f_equal. f_equal. lia.
    + f_equal. destruct attempts as [|j attempts]; [done|].
      rewrite last_cons_cons.
      destruct (last (j :: attempts)) eqn:Hlast; [done|].
      by apply last_None in Hlast.
Qed.

Lemma dialAttempts_count (attempts : list Z) (err : option error) :
  dialCount (dialAttempts dial remoteAddr err attempts).2 ≤ length attempts.
Proof.
  revert err. induction attempts as [|i attempts IH]; intros err; simpl; [done|].
  destruct (dial i) as [e|]; simpl; [|lia].
  specialize (IH (Some e)). lia.
Qed.
End DialRetry.

Lemma dialCount_app (t1 t2 : list event) :
  dialCount (t1 ++ t2) = dialCount t1 + dialCount t2.
Proof.
  induction t1 as [|ev t1 IH]; simpl; [done|]. destruct ev; simpl; lia.
Qed.

Lemma dialCount_failedDials (remoteAddr : string) (errs : Z → error)
    (attempts : list Z) :
  dialCount (failedDials remoteAddr errs attempts) = length attempts.
Proof.
  induction attempts as [|i attempts IH]; [done|].
  change (failedDials remoteAddr errs (i :: attempts))
    with (failedDial remoteAddr errs i ++ failedDials remoteAddr errs attempts).
  rewrite dialCount_app, IH. done.
Qed.

Lemma acceptLoop_handler (F : Forwarding) (remoteAddr : string) :
  ∀ calls first n, n < calls →
    (∀ i, i ≤ n → Accept F (first + i) = None) →
    handlers (acceptLoop F remoteAddr first calls) !! n
    = Some (first + n, proxyConnection F remoteAddr (first + n)).
Proof.
  induction calls as [|calls IH]; intros first n Hn Haccept; [lia|].
  simpl. pose proof (Haccept 0 ltac:(lia)) as Hfirst.
  rewrite Nat.add_0_r in Hfirst. rewrite Hfirst. simpl.
  destruct n as [|n]; simpl.
  - by rewrite Nat.add_0_r.
  - rewrite IH; [by rewrite Nat.add_succ_r|lia|].
    intros i Hi. specialize (Haccept (S i) ltac:(lia)).
    by rewrite Nat.add_succ_r in Haccept.
Qed.

(** The accept loop does not look at what the dials answer. *)
Lemma acceptLoop_dials (F F' : Forwarding) (remoteAddr : string) :
  (∀ n, Accept F' n = Accept F n) →
  ∀ calls first,
    listener (acceptLoop F' remoteAddr first calls)
    = listener (acceptLoop F remoteAddr first calls)
    ∧ ended (acceptLoop F' remoteAddr first calls)
      = ended (acceptLoop F remoteAddr first calls)
    ∧ (handlers (acceptLoop F' remoteAddr first calls)).*1
      = (handlers (acceptLoop F remoteAddr first calls)).*1.
Proof.
  intros Haccept. induction calls as [|calls IH]; intros first; [done|].
  simpl. rewrite Haccept. destruct (Accept F first); [done|].
  destruct (IH (S first)) as (Hlistener & Hended & Hhandlers).
  cbn [listener ended handlers]. rewrite fmap_cons.
  by rewrite Hlistener, Hended, Hhandlers.
Qed.

(** C3.  The handler of an accepted connection dials the remote target
    at most 5 times.  When the attempts before the [k]-th fail and the
    [k]-th succeeds, the trace is those failed attempts, each followed by
    a backoff of 100ms times its index, then the [k]-th dial and the
    forwarding: [k] dials in all, none after the successful one.  When all
    5 fail, the handler logs the failure, closes its connection and
    returns.  The accept loop starts the handler of every connection it
    accepts, and what it does itself is the same whatever the dials of the
    handlers answer. *)
Theorem proxyConnection_retries (F : Forwarding) (remoteAddr : string)
    (incoming : nat) :
  dialCount (proxyConnection F remoteAddr incoming) ≤ 5
  ∧ (∀ (k : Z) (errs : Z → error),
       (1 ≤ k ≤ 5)%Z →
       (∀ i, (1 ≤ i < k)%Z → Dial F incoming i = Some (errs i)) →
       Dial F incoming k = None →
       proxyConnection F remoteAddr incoming
       = failedDials remoteAddr errs (seqZ 1 (k - 1))
           ++ EDial "tcp" remoteAddr :: forwarding
       ∧ dialCount (proxyConnection F remoteAddr incoming) = Z.to_nat k)
  ∧ (∀ errs : Z → error,
       (∀ i, (1 ≤ i ≤ 5)%Z → Dial F incoming i = Some (errs i)) →
       proxyConnection F remoteAddr incoming
       = failedDials remoteAddr errs (seqZ 1 5)
           ++ [ELogErrorf "Failed to connect to node %v" [AString remoteAddr];
               EClose "incoming"])
  ∧ (∀ calls : nat, incoming < calls →
       (∀ i, i ≤ incoming → Accept F i = None) →
       handlers (listenAndForward F remoteAddr calls) !! incoming
       = Some (incoming, proxyConnection F remoteAddr incoming))
  ∧ (∀ (F' : Forwarding) (calls : nat),
       (∀ n, Accept F' n = Accept F n) →
       listener (listenAndForward F' remoteAddr calls)
       = listener (listenAndForward F remoteAddr calls)
       ∧ ended (listenAndForward F' remoteAddr calls)
         = ended (listenAndForward F remoteAddr calls)
       ∧ (handlers (listenAndForward F' remoteAddr calls)).*1
         = (handlers (listenAndForward F remoteAddr calls)).*1).
Proof.
  split; [|split; [|split; [|split]]].
  - unfold proxyConnection.
    pose proof (dialAttempts_count (Dial F incoming) remoteAddr (seqZ 1 5) None)
      as Hcount.
    destruct (dialAttempts (Dial F incoming) remoteAddr None (seqZ 1 5))
      as [err dialed].
    rewrite dialCount_app. simpl in Hcount.
    change (length (seqZ 1 5)) with 5 in Hcount.
    destruct err; simpl; lia.
  - intros k errs Hk Hfailed Hdial.
    assert (proxyConnection F remoteAddr incoming
            = failedDials remoteAddr errs (seqZ 1 (k - 1))
                ++ EDial "tcp" remoteAddr :: forwarding) as ->.
    { unfold proxyConnection.
      replace (seqZ 1 5) with (seqZ 1 (k - 1) ++ k :: seqZ (k + 1) (5 - k)).
      2:{ transitivity (seqZ 1 ((k - 1) + (5 - (k - 1)))); [|f_equal; lia].
          rewrite seqZ_app by lia. f_equal.
          rewrite (seqZ_cons (1 + (k - 1))) by lia.
          f_equal; [lia|]. f_equal; lia. }
      rewrite (dialAttempts_failed _ _ errs).
      2:{ apply Forall_forall. intros i Hi. apply Hfailed.
          apply elem_of_seqZ in Hi. lia. }
      simpl. rewrite Hdial. simpl. by rewrite <- app_assoc. }
    split; [done|].
    rewrite dialCount_app, dialCount_failedDials, length_seqZ. simpl. lia.
  - intros errs Hfailed. unfold proxyConnection.
    pose proof (dialAttempts_failed (Dial F incoming) remoteAddr errs
                  (seqZ 1 5) [] None) as Hall.
    rewrite app_nil_r in Hall. rewrite Hall.
    2:{ apply Forall_forall. intros i Hi. apply Hfailed.
        apply elem_of_seqZ in Hi. lia. }
    done.
  - intros calls Hcalls Haccept.
    by apply (acceptLoop_handler F remoteAddr calls 0 incoming).
  - intros F' calls Haccept. by apply acceptLoop_dials.
Qed.

Lemma proxyConnection_retries_witness :
  proxyConnection exampleForwarding "10.0.0.5:5432" 1
  = failedDials "10.0.0.5:5432" (λ _, ErrorString "connection refused") [1; 2]%Z
      ++ EDial "tcp" "10.0.0.5:5432" :: forwarding
  ∧ handlers (listenAndForward exampleForwarding "10.0.0.5:5432" 3) !! 1
    = Some (1, proxyConnection exampleForwarding "10.0.0.5:5432" 1).
Proof.
  pose proof (proxyConnection_retries exampleForwarding "10.0.0.5:5432" 1)
    as (_ & Hsucceeds & _ & Hserved & _).
  split.
  - apply (Hsucceeds 3%Z (λ _, ErrorString "connection refused")); [lia| |done].
    intros i Hi. assert (i = 1 ∨ i = 2)%Z as [-> | ->] by lia; done.
  - apply Hserved; [lia|done].
Defined.

(** ** The shell start *)

(** C8.  [Shell] asks for the shell whatever [allocateTerminal] returned:
    the request always follows the allocation's events, also when the
    allocation failed.  When the shell start fails, its error is what is
    returned, in place of any allocation error; what the allocation
    returned, its error included, is returned only when the shell start
    succeeds. *)
Theorem Shell_ignores_allocation_error (T : Transport) (nc : NodeSession) :
  (Shell T nc).2 = (allocateTerminal T nc).2 ++ [EShell (serverSession nc)]
  ∧ (∀ err, StartShell T (serverSession nc) = Some err →
       (Shell T nc).1 = (None, Some (Wrap err)))
  ∧ (StartShell T (serverSession nc) = None →
       (Shell T nc).1 = (allocateTerminal T nc).1)
  ∧ (∀ err,
       RequestPty T (serverSession nc) "xterm"
         (Z.of_N (Height (terminalSize nc))) (Z.of_N (Width (terminalSize nc)))
       = Some err →
       (allocateTerminal T nc).1 = (None, Some (Wrap err))
       ∧ EShell (serverSession nc) ∈ (Shell T nc).2).
Proof.
  unfold Shell.
  destruct (allocateTerminal T nc) as [[pipe allocErr] allocated] eqn:Halloc.
  split; [|split; [|split]].
  - destruct (StartShell T (serverSession nc)); simpl; by rewrite app_nil_r.
  - by intros err ->.
  - by intros ->.
  - intros err Hpty. unfold allocateTerminal in Halloc.
    rewrite Hpty in Halloc. injection Halloc as <- <- <-.
    split; [done|].
    destruct (StartShell T (serverSession nc)); simpl; set_solver.
Qed.

Lemma Shell_ignores_allocation_error_witness :
  Shell exampleRefusing exampleNodeSession
  = ((None, Some (Wrap (ErrorString "shell refused"))),
     [ERequestPty 0 "xterm" 40 120; EShell 0]).
Proof.
  pose proof (Shell_ignores_allocation_error exampleRefusing exampleNodeSession)
    as (Htrace & Hshell & _ & _).
  specialize (Hshell _ eq_refl).
  destruct (Shell exampleRefusing exampleNodeSession) as [returned trace].
  simpl in Htrace, Hshell. by rewrite Htrace, Hshell.
Defined.

(** ** Session creation *)

Lemma logError_Forall (P : event → Prop) (err : option error) :
  (∀ e, P (ELogError e)) → Forall P (logError err).
Proof. intros HP. destruct err; simpl; auto. Qed.

Lemma passEvars_events T O s evars :
  Forall (λ ev, isEnvEvent ev = true) (passEvars T O s evars).
Proof.
  induction evars as [|evar evars IH]; simpl; [done|].
  constructor; [done|]. apply Forall_app. split; [|done].
  destruct (decide (Getenv O evar = EmptyString)); [done|].
  constructor; [done|].
  by destruct (Setenv T s evar (Getenv O evar)); repeat constructor.
Qed.

Lemma passEnv_events T s entries :
  Forall (λ ev, isEnvEvent ev = true) (passEnv T s entries).
Proof.
  induction entries as [|[key val] entries IH]; simpl; [done|].
  constructor; [done|]. apply Forall_app. split; [|done].
  by destruct (Setenv T s key val); repeat constructor.
Qed.

(** Whatever holds of every environment event holds of the events of
    the two environment loops. *)
Lemma environment_Forall (P : event → Prop) T O s evars entries :
  (∀ ev, isEnvEvent ev = true → P ev) →
  Forall P (passEvars T O s evars ++ passEnv T s entries).
Proof.
  intros HP. apply Forall_app. split.
  - eapply Forall_impl; [apply passEvars_events|done].
  - eapply Forall_impl; [apply passEnv_events|done].
Qed.

(** What [newSession] does when it joins [joined] with an attached
    terminal, the terminal being put in raw mode and the server-side
    session opened. *)
Lemma newSession_join_run (L : SessionLib) (T : Transport) (O : Host)
    (client : NodeClient) (joined : Session)
    (environ : option (gmap string string)) :
  SetRawTerminal O = None →
  NewSession T 0 = None →
  let size := ParamsWinsize L (Params joined) in
  let nsEnv := <[SessionEnvVar L := ID joined]> (default ∅ environ) in
  newSession L T O client (Some joined) environ true
  = (Ok {| id := ID joined; env := nsEnv; attachedTerm := true;
           terminalSize := size; serverSession := 0; nodeClient := client |},
     (EGetWinsize :: logError (GetWinsize O).2 ++ [ESetRawTerminal])
     ++ ESetWinsize size :: logError (SetWinsize O size)
     ++ EStdoutWrite (resizeEscape size) :: ENewSession 0
     :: (passEvars T O 0 ["LANG"; "LANGUAGE"]
         ++ passEnv T 0 (match environ with
                         | Some _ => map_to_list nsEnv
                         | None => []
                         end))
     ++ [ERestoreTerminal]).
Proof.
  intros Hraw Hsession size nsEnv. unfold newSession.
  destruct (GetWinsize O) as [local err]. rewrite Hraw.
  unfold newSessionFrom. rewrite Hsession. unfold emit. cbn [fst snd].
  fold size nsEnv. f_equal.
  generalize (passEvars T O 0 ["LANG"; "LANGUAGE"]) as evars.
  generalize (passEnv T 0 match environ with
                          | Some _ => map_to_list nsEnv
                          | None => []
                          end) as entries.
  generalize (logError (SetWinsize O size)) as resized.
  generalize (logError err) as measured.
  intros. cbn [snd]. by rewrite <- ?app_assoc, <- ?app_comm_cons, <- ?app_assoc.
Qed.

(** C5.  A session created by joining the session [joined] with an
    attached terminal has the identifier of [joined] (none is drawn) and
    the geometry that [joined] reports, and the local terminal is sent the
    escape [ESC [ 8 ; height ; width t] of that geometry: [ESC[8;40;120t]
    when it is 120 columns by 40 rows. *)
Theorem newSession_join (L : SessionLib) (T : Transport) (O : Host)
    (client : NodeClient) (joined : Session)
    (environ : option (gmap string string)) :
  SetRawTerminal O = None →
  NewSession T 0 = None →
  let size := ParamsWinsize L (Params joined) in
  let run := newSession L T O client (Some joined) environ true in
  ∃ ns, fst run = Ok ns
    ∧ id ns = ID joined
    ∧ (ENewID ∉ snd run)
    ∧ env ns !! SessionEnvVar L = Some (ID joined)
    ∧ terminalSize ns = size
    ∧ ESetWinsize size ∈ snd run
    ∧ EStdoutWrite (ESC +:+ "[8;" +:+ decimal (Height size) +:+ ";"
                      +:+ decimal (Width size) +:+ "t") ∈ snd run
    ∧ (size = {| Height := 40; Width := 120 |} →
         EStdoutWrite (ESC +:+ "[8;40;120t") ∈ snd run).
Proof.
  intros Hraw Hsession size run. subst run.
  rewrite (newSession_join_run L T O client joined environ Hraw Hsession).
  fold size. cbn [fst snd]. eexists. split; [reflexivity|]. cbn [id env terminalSize].
  assert (∀ before after,
            EStdoutWrite (resizeEscape size)
            ∈ before ++ ESetWinsize size :: logError (SetWinsize O size)
                ++ EStdoutWrite (resizeEscape size) :: after) as Hescape.
  { intros. rewrite elem_of_app, elem_of_cons, elem_of_app, elem_of_cons. auto. }
  split; [done|split; [|split; [|split; [done|split; [|split]]]]].
  - match goal with
    | |- _ ∉ ?trace => cut (Forall (λ ev, ev ≠ ENewID) trace)
    end.
    { rewrite Forall_forall. intros Hnone Hdrawn. by apply Hnone in Hdrawn. }
    apply Forall_app. split.
    { constructor; [done|]. apply Forall_app.
      split; [by apply logError_Forall|by repeat constructor]. }
    constructor; [done|]. apply Forall_app. split; [by apply logError_Forall|].
    do 2 (constructor; [done|]). apply Forall_app.
    split; [|by repeat constructor].
    apply environment_Forall. by intros ev Henv ->.
  - apply lookup_insert_eq.
  - apply elem_of_app. right. apply list_elem_of_here.
  - apply Hescape.
  - intros Hgeometry.
    replace (ESC +:+ "[8;40;120t") with (resizeEscape size); [apply Hescape|].
    by rewrite Hgeometry.
Qed.

Lemma newSession_join_witness :
  ∃ ns,
    fst (newSession exampleSessionLib (exampleTransport []) exampleHost
           exampleNodeClient (Some exampleJoined) None true) = Ok ns
    ∧ id ns = "0f1e2d3c"
    ∧ EStdoutWrite (ESC +:+ "[8;40;120t")
      ∈ snd (newSession exampleSessionLib (exampleTransport []) exampleHost
               exampleNodeClient (Some exampleJoined) None true).
Proof.
  destruct (newSession_join exampleSessionLib (exampleTransport []) exampleHost
              exampleNodeClient exampleJoined None eq_refl eq_refl)
    as (ns & Hns & Hid & _ & _ & _ & _ & _ & Hescape).
  exists ns. split; [exact Hns|]. split; [exact Hid|]. exact (Hescape eq_refl).
Defined.

(** C10.  A session that is new (not joined) and has no attached terminal
    never queries or changes the local terminal, and once its server-side
    session is opened it is created with the geometry of 80 columns by 25
    rows and a freshly drawn identifier. *)
Theorem newSession_detached (L : SessionLib) (T : Transport) (O : Host)
    (client : NodeClient) (environ : option (gmap string string)) :
  let run := newSession L T O client None environ false in
  Forall (λ ev, touchesTerminal ev = false) (snd run)
  ∧ (NewSession T 0 = None →
       ∃ ns, fst run = Ok ns
         ∧ terminalSize ns = {| Height := 25; Width := 80 |}
         ∧ Width (terminalSize ns) = 80%N
         ∧ Height (terminalSize ns) = 25%N
         ∧ attachedTerm ns = false
         ∧ id ns = NewID O).
Proof.
  intros run. subst run. unfold newSession, newSessionFrom. split.
  - destruct (NewSession T 0); unfold emit; cbn [fst snd].
    + by repeat constructor.
    + do 2 (constructor; [done|]).
      apply environment_Forall. by intros [].
  - intros ->. eexists. by cbn.
Qed.

Lemma newSession_detached_witness :
  ∃ ns,
    fst (newSession exampleSessionLib (exampleTransport []) exampleHost
           exampleNodeClient None None false) = Ok ns
    ∧ terminalSize ns = {| Height := 25; Width := 80 |}.
Proof.
  destruct (proj2 (newSession_detached exampleSessionLib (exampleTransport [])
                     exampleHost exampleNodeClient None) eq_refl)
    as (ns & Hns & Hsize & _).
  exists ns. split; [exact Hns|exact Hsize].
Defined.

(** ** The resize loop *)

(** A signal that finds the terminal at [currentSize] sends nothing, and
    leaves the loop as it was. *)
Lemma resizeLoop_same_size (L : SessionLib) (ns : NodeSession)
    (siteClient : bool) (currentSize winSize : Winsize)
    (prevSess : option Session) (sent : option error) (rest : list selected) :
  sameSize winSize currentSize = true →
  resizeLoop L ns siteClient currentSize prevSess
    (SigC true (winSize, None) sent :: rest)
  = emit [EGetWinsize] (resizeLoop L ns siteClient currentSize prevSess rest).
Proof. intros Hsame. simpl. by rewrite Hsame. Qed.

(** A signal never changes [currentSize]: the size it sends is not
    recorded. *)
Lemma resizeLoop_signal_keeps_size (L : SessionLib) (ns : NodeSession)
    (siteClient : bool) (currentSize : Winsize) (prevSess : option Session)
    (winsize : Winsize * option error) (sent : option error)
    (rest : list selected) :
  ∃ evs,
    resizeLoop L ns siteClient currentSize prevSess (SigC true winsize sent :: rest)
    = emit evs (resizeLoop L ns siteClient currentSize prevSess rest).
Proof.
  destruct winsize as [winSize [e|]]; simpl.
  - eexists. by rewrite emit_emit.
  - destruct (sameSize winSize currentSize); eexists; [done|].
    by rewrite emit_emit.
Qed.

(** C6, at the failing rounds.  The loop resizes the local terminal to
    120 by 40 itself; the signal of that resize, which finds the terminal
    at 120 by 40, sends a window-change request of 120 by 40, and a second
    signal, which finds the same size again, sends the same request again.
    The loop still holds 80 by 25 as its current size. *)
Theorem updateTerminalSize_resends :
  updateTerminalSize exampleSessionLib exampleNodeSession
    ({| Height := 25; Width := 80 |}, None) None exampleRounds
  = (Waiting {| Height := 25; Width := 80 |} (Some exampleJoined),
     [EGetWinsize; EConnectToSite;
      EGetSession "0f1e2d3c";
      EGetSession "0f1e2d3c"; EGetWinsize;
      ESetWinsize {| Height := 40; Width := 120 |};
      EStdoutWrite (ESC +:+ "[8;40;120t");
      EGetWinsize; EWindowChange 0 120 40;
      EGetWinsize; EWindowChange 0 120 40])
  ∧ resizes (updateTerminalSize exampleSessionLib exampleNodeSession
               ({| Height := 25; Width := 80 |}, None) None exampleRounds).2
    = [{| Height := 40; Width := 120 |}]
  ∧ windowChanges (updateTerminalSize exampleSessionLib exampleNodeSession
                     ({| Height := 25; Width := 80 |}, None) None exampleRounds).2
    = [(120, 40); (120, 40)]%N.
Proof. by vm_compute. Qed.

(** ** The file-transfer bridge *)

Section Transfer.
Variables (X : Transfer) (T : Transport) (shellCmd : string).

Local Abbreviation step := (scp_step X T shellCmd).
Local Abbreviation run := (foldl (scp_step X T shellCmd)).

Lemma step_returns_at_Done st t :
  returns_at_Done st → returns_at_Done (step st t).
Proof.
  unfold returns_at_Done. destruct st as [err runErr adopt main copier returned].
  destruct t, main, copier; simpl; eauto; discriminate.
Qed.

Lemma run_returns_at_Done schedule st :
  returns_at_Done st → returns_at_Done (run st schedule).
Proof.
  revert st. induction schedule as [|t schedule IH]; intros st Hst; [done|].
  simpl. by apply IH, step_returns_at_Done.
Qed.

(** Once the goroutine is given its two steps and the body five more,
    the function has returned, whatever came before. *)
Lemma run_finishes st :
  returns_at_Done st →
  is_Some (returned (run st [Copier; Copier; Main; Main; Main; Main; Main])).
Proof.
  unfold returns_at_Done. destruct st as [err runErr adopt main copier returned].
  destruct main, copier; simpl; eauto.
Qed.

Hypothesis session_opened : NewSession T 0 = None.
Hypothesis stdin_piped : StdinPipe T 0 = None.
Hypothesis stdout_piped : StdoutPipe T 0 = None.

Lemma scp_piped schedule :
  scp X T shellCmd schedule = returned (run scp_start schedule).
Proof. unfold scp. by rewrite session_opened, stdin_piped, stdout_piped. Qed.

(** [scp] returns under every schedule that lets both threads finish. *)
Lemma scp_returns schedule :
  is_Some (scp X T shellCmd
             (schedule ++ [Copier; Copier; Main; Main; Main; Main; Main])).
Proof.
  rewrite scp_piped, foldl_app. apply run_finishes.
  by apply run_returns_at_Done.
Qed.

Variable eof : error.
Hypothesis protocol_eof : Execute X = Some eof.
Hypothesis is_eof : IsEOF X eof = true.

Lemma step_eof_kept st t : eof_kept eof st → eof_kept eof (step st t).
Proof.
  unfold eof_kept. destruct st as [err runErr adopt main copier returned].
  destruct t, main, copier; simpl; intros [Hcopier Hmain];
    try done; try (destruct Hmain as (-> & Hmain)); try (destruct Hmain as (-> & ->));
    try subst; simpl; rewrite ?is_eof; auto.
  all: split; [done|]; by destruct (isNil runErr).
Qed.

Lemma run_eof_kept schedule st : eof_kept eof st → eof_kept eof (run st schedule).
Proof.
  revert st. induction schedule as [|t schedule IH]; intros st Hst; [done|].
  simpl. by apply IH, step_eof_kept.
Qed.

(** The body waits at [<-closeC] while the goroutine has not started. *)
Lemma run_waits (n : nat) st :
  main st = AtWait → copier st = AtExecute → run st (replicate n Main) = st.
Proof.
  intros Hmain Hcopier.
  assert (step st Main = st) as Hblocked.
  { unfold scp_step. by rewrite Hmain, Hcopier. }
  induction n as [|n IH]; [done|].
  change (run st (replicate (S n) Main))
    with (run (step st Main) (replicate n Main)).
  by rewrite Hblocked.
Qed.

(** When the protocol side ends with the end-of-stream error and its
    store does not fall between the body's test and store, the transfer
    is reported as a success, whatever [session.Run] returned. *)
Lemma scp_eof_success (before : nat) (rest : list thread) :
  before ≠ 2 →
  scp X T shellCmd (replicate before Main ++ Copier :: rest) = None
  ∨ scp X T shellCmd (replicate before Main ++ Copier :: rest) = Some None.
Proof.
  intros Hbefore. rewrite scp_piped, foldl_app. simpl.
  assert (eof_kept eof (step (run scp_start (replicate before Main)) Copier)) as Hkept.
  { destruct before as [|[|[|[|before]]]]; [| |done| |].
    - unfold eof_kept. simpl. by rewrite protocol_eof.
    - unfold eof_kept. simpl. by rewrite protocol_eof.
    - unfold eof_kept. simpl. by rewrite protocol_eof.
    - change (replicate (S (S (S (S before)))) Main)
        with ([Main; Main; Main] ++ replicate (S before) Main).
      rewrite foldl_app, run_waits by done.
      unfold eof_kept. simpl. by rewrite protocol_eof. }
  apply (run_eof_kept rest) in Hkept as [_ Hkept].
  destruct (main (run _ rest)); tauto.
Qed.
End Transfer.

(** C7, at the failing schedule.  The protocol side ends with the
    end-of-stream error and the remote command with an error of its own;
    the goroutine stores its result after the body has found [err] nil and
    before the body stores [runErr]: the remote command's error is
    returned, not success. *)
Theorem scp_eof_overwritten :
  Execute exampleTransfer = Some (ErrorString "EOF")
  ∧ IsEOF exampleTransfer (ErrorString "EOF") = true
  ∧ scp exampleTransfer exampleRefusing "/usr/bin/scp -f /var/log/syslog"
      racingSchedule
    = Some (Some (Wrap (ErrorString "Process exited with status 1")))
  ∧ scp exampleTransfer exampleRefusing "/usr/bin/scp -f /var/log/syslog"
      sequentialSchedule
    = Some None.
Proof. by vm_compute. Qed.

(** * Further properties *)

(** ** ConnectToNode: what every run does *)

Section TrialLoopInvariant.
Variables (U : Utils) (T : Transport) (proxy : ProxyClient).
Variables (nodeAddress user : string) (localAddr fakeAddr : NetAddr).

Local Abbreviation try :=
  (tryAuthMethods U T proxy nodeAddress user localAddr fakeAddr).

(** The shape of every run of the loop from session [n] on: [o] sessions
    asked for, [h] negotiations, [c] sessions closed. *)
Lemma try_shape (methods : list AuthMethod) : ∀ (e : error) (n : nat),
  ∃ o h c,
    sessionsAsked (try e n methods).2 = seq n o
    ∧ negotiations (try e n methods).2
      = zip (seq n h) ((λ m, [m]) <$> take h methods)
    ∧ sessionsClosed (try e n methods).2 = seq n c
    ∧ c ≤ h ∧ h ≤ o ∧ o ≤ S c ∧ o ≤ length methods
    ∧ (∀ nc, (try e n methods).1 = Ok nc → h = o ∧ o = S c)
    ∧ (o < length methods → o = S c).
Proof.
  induction methods as [|authMethod rest IH]; intros e n.
  - exists 0, 0, 0. simpl.
    destruct (IsHandshakeFailedError U e); simpl; split_and!; try done; lia.
  - simpl.
    destruct (NewSession T n);
      [exists 1, 0, 0; simpl; split_and!; try done; lia|].
    destruct (StdinPipe T n);
      [exists 1, 0, 0; simpl; split_and!; try done; lia|].
    destruct (StdoutPipe T n);
      [exists 1, 0, 0; simpl; split_and!; try done; lia|].
    destruct (StderrPipe T n);
      [exists 1, 0, 0; simpl; split_and!; try done; lia|].
    destruct (RequestSubsystem T n ("proxy:" +:+ nodeAddress));
      [exists 1, 0, 0; simpl; split_and!; try done; lia|].
    destruct (NewClientConn T _ nodeAddress _) as [client|err];
      [exists 1, 1, 0; simpl; split_and!; try done; lia|].
    destruct (IsHandshakeFailedError U err);
      [|exists 1, 1, 0; simpl; split_and!; try done; lia].
    destruct (IH (Wrap err) (S n))
      as (o & h & c & Ho & Hh & Hc & ? & ? & ? & ? & Hok & Hmore).
    exists (S o), (S h), (S c). simpl.
    rewrite Ho, Hh, Hc. split_and!; try done; try lia.
    intros nc Hnc. destruct (Hok nc Hnc). lia.
Qed.
End TrialLoopInvariant.

Lemma ConnectToNode_cases (U : Utils) (T : Transport) (proxy : ProxyClient)
    (nodeAddress user : string) :
  (∃ err, ConnectToNode U T proxy nodeAddress user = (Err (Wrap err), []))
  ∨ (∃ localAddr fakeAddr,
       ParseAddr U ("tcp://" +:+ proxyAddress proxy) = Ok localAddr
       ∧ ParseAddr U ("tcp://" +:+ nodeAddress) = Ok fakeAddr
       ∧ ConnectToNode U T proxy nodeAddress user
         = tryAuthMethods U T proxy nodeAddress user localAddr fakeAddr
             (Errorf "unknown Error" []) 0 (authMethods proxy)).
Proof.
  unfold ConnectToNode.
  destruct (ParseAddr U ("tcp://" +:+ proxyAddress proxy)) as [localAddr|err];
    [|left; by exists err].
  destruct (ParseAddr U ("tcp://" +:+ nodeAddress)) as [fakeAddr|err];
    [|left; by exists err].
  right. by exists localAddr, fakeAddr.
Qed.

(** X1.  Whatever the collaborators answer, each negotiation that
    [ConnectToNode] starts offers exactly one authentication method, and
    the methods offered are, in order, the first ones of the configured
    list, the one at index [i] on session [i]. *)
Theorem ConnectToNode_offers_in_order (U : Utils) (T : Transport)
    (proxy : ProxyClient) (nodeAddress user : string) :
  ∃ h, h ≤ length (authMethods proxy)
    ∧ negotiations (ConnectToNode U T proxy nodeAddress user).2
      = zip (seq 0 h) ((λ m, [m]) <$> take h (authMethods proxy)).
Proof.
  destruct (ConnectToNode_cases U T proxy nodeAddress user)
    as [[err ->]|(localAddr & fakeAddr & _ & _ & ->)].
  - exists 0. split; [lia|done].
  - destruct (try_shape U T proxy nodeAddress user localAddr fakeAddr
                (authMethods proxy) (Errorf "unknown Error" []) 0)
      as (o & h & c & _ & Hh & _ & ? & ? & ? & ? & _).
    exists h. split; [lia|done].
Qed.

(** X2.  Whatever the collaborators answer, [ConnectToNode] asks for at
    most one session per configured method, numbered from 0 in order, and
    closes them in order, all of them or all but the last: the session of
    a returned client is never closed, and neither is the session of an
    attempt that ends the loop before the last method. *)
Theorem ConnectToNode_sessions (U : Utils) (T : Transport)
    (proxy : ProxyClient) (nodeAddress user : string) :
  ∃ o c,
    sessionsAsked (ConnectToNode U T proxy nodeAddress user).2 = seq 0 o
    ∧ sessionsClosed (ConnectToNode U T proxy nodeAddress user).2 = seq 0 c
    ∧ o ≤ length (authMethods proxy)
    ∧ c ≤ o ∧ o ≤ S c
    ∧ (∀ nc, (ConnectToNode U T proxy nodeAddress user).1 = Ok nc → o = S c)
    ∧ (0 < o → o < length (authMethods proxy) → o = S c).
Proof.
  destruct (ConnectToNode_cases U T proxy nodeAddress user)
    as [[err ->]|(localAddr & fakeAddr & _ & _ & ->)].
  - exists 0, 0. split_and!; try done; lia.
  - destruct (try_shape U T proxy nodeAddress user localAddr fakeAddr
                (authMethods proxy) (Errorf "unknown Error" []) 0)
      as (o & h & c & Ho & _ & Hc & ? & ? & ? & ? & Hok & Hmore).
    exists o, c. split_and!; try done; try lia.
    intros nc Hnc. by destruct (Hok nc Hnc).
Qed.

Section TrialLoopConverse.
Variables (U : Utils) (T : Transport) (proxy : ProxyClient).
Variables (nodeAddress user : string) (localAddr fakeAddr : NetAddr).

Local Abbreviation try :=
  (tryAuthMethods U T proxy nodeAddress user localAddr fakeAddr).

(** A client is returned only by a negotiation that succeeds after the
    methods before it were rejected. *)
Lemma try_Ok (methods : list AuthMethod) : ∀ (e : error) (n : nat) nc,
  (try e n methods).1 = Ok nc →
  Proxy nc = proxy
  ∧ ∃ pre authMethod post,
      methods = pre ++ authMethod :: post
      ∧ allRejected U T nodeAddress user localAddr fakeAddr n pre
      ∧ reachesHandshake T nodeAddress (n + length pre)
      ∧ handshake T nodeAddress user localAddr fakeAddr (n + length pre) authMethod
        = Ok (Client nc).
Proof.
  induction methods as [|authMethod rest IH]; intros e n nc; simpl.
  - by destruct (IsHandshakeFailedError U e).
  - destruct (NewSession T n) eqn:Hnew; [done|].
    destruct (StdinPipe T n) eqn:Hin; [done|].
    destruct (StdoutPipe T n) eqn:Hout; [done|].
    destruct (StderrPipe T n) eqn:Herr; [done|].
    destruct (RequestSubsystem T n ("proxy:" +:+ nodeAddress)) eqn:Hsub; [done|].
    destruct (NewClientConn T _ nodeAddress _) as [client|err] eqn:Hneg.
    + intros [= <-]. split; [done|].
      exists [], authMethod, rest. rewrite Nat.add_0_r.
      split_and!; (done || by intros i a).
    + destruct (IsHandshakeFailedError U err) eqn:Hhf; [|done].
      intros Hnc. destruct (IH _ _ _ Hnc)
        as (Hproxy & pre & final & post & -> & Hpre & Hreach & Hfinal).
      split; [done|]. exists (authMethod :: pre), final, post.
      simpl length. rewrite Nat.add_succ_r.
      split_and!; try done.
      intros [|i] a Ha.
      * injection Ha as <-. exists err. rewrite Nat.add_0_r. by split_and!.
      * rewrite Nat.add_succ_r. by apply Hpre.
Qed.

(** The access-denied error is returned only when the loop has run out of
    methods, each one rejected. *)
Lemma try_access_denied (methods : list AuthMethod) : ∀ (e : error) (n : nat) args,
  (∀ args', e ≠ Errorf access_denied_format args') →
  (try e n methods).1 = Err (Errorf access_denied_format args) →
  allRejected U T nodeAddress user localAddr fakeAddr n methods
  ∧ (try e n methods).2
    = rejectedEvents nodeAddress user localAddr fakeAddr n methods.
Proof.
  induction methods as [|authMethod rest IH]; intros e n args He; simpl.
  - destruct (IsHandshakeFailedError U e); simpl.
    + intros _. split; [by intros i a|done].
    + intros [= ->]. by destruct (He args).
  - destruct (NewSession T n) eqn:Hnew; [done|].
    destruct (StdinPipe T n) eqn:Hin; [done|].
    destruct (StdoutPipe T n) eqn:Hout; [done|].
    destruct (StderrPipe T n) eqn:Herr; [done|].
    destruct (RequestSubsystem T n ("proxy:" +:+ nodeAddress)) eqn:Hsub; [done|].
    destruct (NewClientConn T _ nodeAddress _) as [client|err] eqn:Hneg; [done|].
    destruct (IsHandshakeFailedError U err) eqn:Hhf; [|done].
    intros Hdenied. destruct (IH (Wrap err) (S n) args) as [Hrest Htrace];
      [done|done|].
    split.
    + intros [|i] a Ha.
      * injection Ha as <-. exists err. rewrite Nat.add_0_r. by split_and!.
      * rewrite Nat.add_succ_r. by apply Hrest.
    + unfold emit. simpl. by rewrite Htrace.
Qed.
End TrialLoopConverse.

(** X3.  When [ConnectToNode] returns a client, both addresses were
    parsed, the client belongs to this proxy and is the connection that
    the negotiation of one configured method established, every method
    before that one having been rejected with a handshake-failed error. *)
Theorem ConnectToNode_client_negotiated (U : Utils) (T : Transport)
    (proxy : ProxyClient) (nodeAddress user : string) (nc : NodeClient) :
  (ConnectToNode U T proxy nodeAddress user).1 = Ok nc →
  Proxy nc = proxy
  ∧ ∃ localAddr fakeAddr pre authMethod post,
      ParseAddr U ("tcp://" +:+ proxyAddress proxy) = Ok localAddr
      ∧ ParseAddr U ("tcp://" +:+ nodeAddress) = Ok fakeAddr
      ∧ authMethods proxy = pre ++ authMethod :: post
      ∧ allRejected U T nodeAddress user localAddr fakeAddr 0 pre
      ∧ reachesHandshake T nodeAddress (length pre)
      ∧ handshake T nodeAddress user localAddr fakeAddr (length pre) authMethod
        = Ok (Client nc).
Proof.
  destruct (ConnectToNode_cases U T proxy nodeAddress user)
    as [[err ->]|(localAddr & fakeAddr & Hlocal & Hfake & ->)]; [done|].
  intros Hnc. apply try_Ok in Hnc
    as (Hproxy & pre & authMethod & post & ? & ? & ? & ?).
  split; [done|]. by exists localAddr, fakeAddr, pre, authMethod, post.
Qed.

Lemma ConnectToNode_client_negotiated_witness :
  ∃ pre authMethod post,
    authMethods (exampleProxy [1; 2; 3]) = pre ++ authMethod :: post
    ∧ handshake (exampleTransport [2]) "node1:3022@east" "root" exampleLocal
        (exampleNode "node1:3022@east") (length pre) authMethod
      = Ok (Connection 1).
Proof.
  destruct (ConnectToNode_client_negotiated exampleUtils (exampleTransport [2])
              (exampleProxy [1; 2; 3]) "node1:3022@east" "root"
              {| Client := Connection 1; Proxy := exampleProxy [1; 2; 3] |}
              eq_refl)
    as (_ & localAddr & fakeAddr & pre & authMethod & post
        & [= <-] & [= <-] & Hmethods & _ & _ & Hneg).
  by exists pre, authMethod, post.
Defined.

(** X4.  [ConnectToNode] returns the access-denied error only after it
    has tried every configured method and each was rejected with a
    handshake-failed error, every session it opened being closed again. *)
Theorem ConnectToNode_denied_after_all (U : Utils) (T : Transport)
    (proxy : ProxyClient) (nodeAddress user : string) (args : list fmt_arg) :
  (ConnectToNode U T proxy nodeAddress user).1
  = Err (Errorf access_denied_format args) →
  ∃ localAddr fakeAddr,
    ParseAddr U ("tcp://" +:+ proxyAddress proxy) = Ok localAddr
    ∧ ParseAddr U ("tcp://" +:+ nodeAddress) = Ok fakeAddr
    ∧ allRejected U T nodeAddress user localAddr fakeAddr 0 (authMethods proxy)
    ∧ (ConnectToNode U T proxy nodeAddress user).2
      = rejectedEvents nodeAddress user localAddr fakeAddr 0 (authMethods proxy)
    ∧ sessionsClosed (ConnectToNode U T proxy nodeAddress user).2
      = seq 0 (length (authMethods proxy)).
Proof.
  destruct (ConnectToNode_cases U T proxy nodeAddress user)
    as [[err ->]|(localAddr & fakeAddr & Hlocal & Hfake & ->)]; [done|].
  intros Hdenied. apply try_access_denied in Hdenied as [Hall Htrace]; [|done].
  exists localAddr, fakeAddr. split_and!; try done.
  rewrite Htrace. clear. generalize 0 as n.
  induction (authMethods proxy) as [|m methods IH]; intros n; [done|].
  simpl. by rewrite IH.
Qed.

Lemma ConnectToNode_denied_after_all_witness :
  sessionsClosed
    (ConnectToNode exampleUtils (exampleTransport []) (exampleProxy [1; 2])
       "node1:3022@east" "root").2
  = [0; 1].
Proof.
  destruct (ConnectToNode_denied_after_all exampleUtils (exampleTransport [])
              (exampleProxy [1; 2]) "node1:3022@east" "root" _ eq_refl)
    as (_ & _ & _ & _ & _ & _ & Hclosed).
  exact Hclosed.
Defined.

(** ** ConnectToNode: failures before the negotiation *)

Lemma Split_whole (s : string) :
  afterFirstAt s = None → Split s "@" = [s].
Proof.
  induction s as [|c s IH]; simpl; [done|].
  destruct (Ascii.eqb c "@"); [done|]. intros Hs. by rewrite IH.
Qed.

Lemma last_part_cons (piece : string) (pieces : list string) :
  pieces ≠ [] → last_part (piece :: pieces) = last_part pieces.
Proof. destruct pieces; [done|]. by unfold last_part; rewrite last_cons_cons. Qed.

(** [parts[len(parts)-1]] of [host@cluster] is [cluster], when [cluster]
    has no [@]. *)
Lemma last_part_cluster (host cluster : string) :
  afterFirstAt cluster = None →
  last_part (Split (host +:+ "@" +:+ cluster) "@") = cluster
  ∧ ∃ piece next pieces,
      Split (host +:+ "@" +:+ cluster) "@" = piece :: next :: pieces.
Proof.
  intros Hcluster. change ("@" +:+ cluster) with (String "@" cluster).
  induction host as [|c host [IH (piece & next & pieces & Hsplit)]]; simpl.
  - rewrite (Split_whole _ Hcluster). split; [done|by eexists _, _, _].
  - destruct (Ascii.eqb c "@").
    + rewrite Hsplit, last_part_cons by done. rewrite <- Hsplit.
      split; [done|]. rewrite Hsplit. by eexists _, _, _.
    + rewrite Hsplit in IH |- *. rewrite last_part_cons in IH |- * by done.
      split; [done|by eexists _, _, _].
Qed.

Section TrialLoopSetup.
Variables (U : Utils) (T : Transport) (proxy : ProxyClient).
Variables (nodeAddress user : string) (localAddr fakeAddr : NetAddr).
Variables (pre post : list AuthMethod) (authMethod : AuthMethod).

Hypothesis parsed_local :
  ParseAddr U ("tcp://" +:+ proxyAddress proxy) = Ok localAddr.
Hypothesis parsed_node : ParseAddr U ("tcp://" +:+ nodeAddress) = Ok fakeAddr.
Hypothesis configured : authMethods proxy = pre ++ authMethod :: post.
Hypothesis rejected_before :
  allRejected U T nodeAddress user localAddr fakeAddr 0 pre.

Local Abbreviation k := (length pre).
Local Abbreviation rejections :=
  (rejectedEvents nodeAddress user localAddr fakeAddr 0 pre).

Lemma ConnectToNode_after_rejected :
  ∃ e, ConnectToNode U T proxy nodeAddress user
       = emit rejections
           (tryAuthMethods U T proxy nodeAddress user localAddr fakeAddr
              e k (authMethod :: post)).
Proof.
  rewrite (ConnectToNode_parsed U T proxy nodeAddress user localAddr fakeAddr
             parsed_local parsed_node), configured.
  destruct (try_rejected U T proxy nodeAddress user localAddr fakeAddr pre
              (Errorf "unknown Error" []) 0 (authMethod :: post) rejected_before)
    as (e' & Htry & _).
  by exists e'.
Qed.

(** X5.  When the relay refuses to route a session to the node (the
    methods before it having been rejected), [ConnectToNode] returns at
    once the error "Failed connecting to cluster" that names the last
    piece of the node address split at [@] (the cluster of [host@cluster],
    the whole address when it has no [@]) together with the relay's error:
    the relay's error stream is printed, no negotiation is started on that
    session, the session is not closed and no further method is tried. *)
Theorem ConnectToNode_routing_refused (err : error) :
  NewSession T k = None → StdinPipe T k = None → StdoutPipe T k = None →
  StderrPipe T k = None →
  RequestSubsystem T k ("proxy:" +:+ nodeAddress) = Some err →
  ∃ named,
    ConnectToNode U T proxy nodeAddress user
    = (Err (Errorf "Failed connecting to cluster %v: %v"
              [AString named; AError err]),
       rejections
       ++ [ENewSession k; EStdinPipe k; EStdoutPipe k; EStderrPipe k;
           ERequestSubsystem k ("proxy:" +:+ nodeAddress); EPrintErrors k])
    ∧ named = last_part (Split nodeAddress "@")
    ∧ (afterFirstAt nodeAddress = None → named = nodeAddress)
    ∧ (∀ host cluster, nodeAddress = host +:+ "@" +:+ cluster →
         afterFirstAt cluster = None → named = cluster).
Proof.
  intros Hnew Hin Hout Herr Hsub.
  destruct ConnectToNode_after_rejected as [e ->].
  exists (last_part (Split nodeAddress "@")). split_and!.
  - simpl. by rewrite Hnew, Hin, Hout, Herr, Hsub.
  - done.
  - intros Hwhole. by rewrite Split_whole.
  - intros host cluster -> Hcluster. by apply last_part_cluster.
Qed.

(** X6.  A session that cannot be opened, or one of whose three pipes
    cannot be set up, ends [ConnectToNode] at once with that error
    wrapped, whatever kind of error it is: nothing more is asked of the
    relay, and the methods left are not tried. *)
Theorem ConnectToNode_setup_fatal (err : error) :
  (NewSession T k = Some err →
     ConnectToNode U T proxy nodeAddress user
     = (Err (Wrap err), rejections ++ [ENewSession k]))
  ∧ (NewSession T k = None → StdinPipe T k = Some err →
       ConnectToNode U T proxy nodeAddress user
       = (Err (Wrap err), rejections ++ [ENewSession k; EStdinPipe k]))
  ∧ (NewSession T k = None → StdinPipe T k = None →
     StdoutPipe T k = Some err →
       ConnectToNode U T proxy nodeAddress user
       = (Err (Wrap err),
          rejections ++ [ENewSession k; EStdinPipe k; EStdoutPipe k]))
  ∧ (NewSession T k = None → StdinPipe T k = None → StdoutPipe T k = None →
     StderrPipe T k = Some err →
       ConnectToNode U T proxy nodeAddress user
       = (Err (Wrap err),
          rejections
          ++ [ENewSession k; EStdinPipe k; EStdoutPipe k; EStderrPipe k])).
Proof.
  destruct ConnectToNode_after_rejected as [e ->]. split_and!.
  - intros Hnew. simpl. by rewrite Hnew.
  - intros Hnew Hin. simpl. by rewrite Hnew, Hin.
  - intros Hnew Hin Hout. simpl. by rewrite Hnew, Hin, Hout.
  - intros Hnew Hin Hout Herr. simpl. by rewrite Hnew, Hin, Hout, Herr.
Qed.
End TrialLoopSetup.

Lemma ConnectToNode_routing_refused_witness :
  (ConnectToNode exampleUtils exampleUnroutable (exampleProxy [1; 2])
     "node1:3022@east" "root").1
  = Err (Errorf "Failed connecting to cluster %v: %v"
           [AString "east"; AError (ErrorString "ssh: subsystem request failed")]).
Proof.
  assert (allRejected exampleUtils exampleUnroutable "node1:3022@east" "root"
            exampleLocal (exampleNode "node1:3022@east") 0 [Credential 1])
    as Hrejected.
  { intros [|i] a [=]. subst a.
    exists (ErrorString "ssh: handshake failed"). by repeat split. }
  destruct (ConnectToNode_routing_refused exampleUtils exampleUnroutable
              (exampleProxy [1; 2]) "node1:3022@east" "root"
              exampleLocal (exampleNode "node1:3022@east")
              [Credential 1] [] (Credential 2) eq_refl eq_refl eq_refl Hrejected
              (ErrorString "ssh: subsystem request failed")
              eq_refl eq_refl eq_refl eq_refl eq_refl)
    as (named & Hrun & _ & _ & Hcluster).
  rewrite Hrun. by rewrite (Hcluster "node1:3022" "east" eq_refl eq_refl).
Defined.

Lemma ConnectToNode_setup_fatal_witness :
  ConnectToNode exampleUtils exampleNoPipe (exampleProxy [1; 2]) "node1:3022" "root"
  = (Err (Wrap (ErrorString "EOF")),
     rejectedEvents "node1:3022" "root" exampleLocal (exampleNode "node1:3022")
       0 [Credential 1]
     ++ [ENewSession 1; EStdinPipe 1; EStdoutPipe 1]).
Proof.
  assert (allRejected exampleUtils exampleNoPipe "node1:3022" "root"
            exampleLocal (exampleNode "node1:3022") 0 [Credential 1])
    as Hrejected.
  { intros [|i] a [=]. subst a.
    exists (ErrorString "ssh: handshake failed"). by repeat split. }
  exact (proj1 (proj2 (proj2
           (ConnectToNode_setup_fatal exampleUtils exampleNoPipe
              (exampleProxy [1; 2]) "node1:3022" "root"
              exampleLocal (exampleNode "node1:3022")
              [Credential 1] [] (Credential 2) eq_refl eq_refl eq_refl Hrejected
              (ErrorString "EOF")))) eq_refl eq_refl eq_refl).
Defined.

(** ** GetSites, ConnectToSite and FindServersByLabels *)

Lemma GetSites_lists (T : Transport) (C : Control) (sites : list Site) :
  lists T C sites → GetSites T C 0 = (Ok sites, listingEvents).
Proof.
  intros (Hnew & Hout & Hsub & stdout & Hlisting & Hparse).
  unfold GetSites. by rewrite Hnew, Hout, Hsub, Hlisting, Hparse.
Qed.

Section SiteConnection.
Variables (U : Utils) (T : Transport) (C : Control) (proxy : ProxyClient).
Variables (sites : list Site) (site : Site) (localAddr fakeAddr : NetAddr).

Hypothesis listed : lists T C sites.
Hypothesis selected : getSite proxy (Ok sites) = Ok site.
Hypothesis parsed_local :
  ParseAddr U ("tcp://" +:+ proxyAddress proxy) = Ok localAddr.
Hypothesis parsed_site :
  ParseAddr U ("tcp://" +:+ "@" +:+ Name site) = Ok fakeAddr.

Local Abbreviation address := ("@" +:+ Name site).
Local Abbreviation login := (hostLogin proxy).

Lemma ConnectToSite_selected :
  ConnectToSite U T C proxy
  = let '(nodeClient, connected) :=
      tryAuthMethods U T proxy address login localAddr fakeAddr
        (Errorf "unknown Error" []) 1 (authMethods proxy) in
    match nodeClient with
    | Err err => (Err (Wrap err), listingEvents ++ connected ++ [ELogError err])
    | Ok nodeClient =>
        match NewAuthClient C nodeClient with
        | Some err => (Err (Wrap err), listingEvents ++ connected)
        | None => (Ok (AuthClientOver nodeClient), listingEvents ++ connected)
        end
    end.
Proof.
  unfold ConnectToSite. rewrite (GetSites_lists _ _ _ listed), selected.
  unfold ConnectToNodeFrom. by rewrite parsed_local, parsed_site.
Qed.

(** X7.  When the relay lists the sites and one is selected,
    [ConnectToSite] connects to the node address [@<site name>] as the
    proxy's host login, on the sessions that follow the listing session:
    the methods rejected before the accepted one are tried in order, and
    the auth client is built over the connection negotiated with the
    accepted one. *)
Theorem ConnectToSite_dials_site (pre post : list AuthMethod)
    (authMethod : AuthMethod) (client : SSHClient) :
  authMethods proxy = pre ++ authMethod :: post →
  allRejected U T address login localAddr fakeAddr 1 pre →
  reachesHandshake T address (1 + length pre) →
  handshake T address login localAddr fakeAddr (1 + length pre) authMethod
  = Ok client →
  NewAuthClient C {| Client := client; Proxy := proxy |} = None →
  ConnectToSite U T C proxy
  = (Ok (AuthClientOver {| Client := client; Proxy := proxy |}),
     listingEvents
     ++ rejectedEvents address login localAddr fakeAddr 1 pre
     ++ attemptEvents address login localAddr fakeAddr (1 + length pre) authMethod).
Proof.
  intros Hmethods Hpre Hreach Hneg Hauth.
  rewrite ConnectToSite_selected, Hmethods.
  destruct (try_rejected U T proxy address login localAddr fakeAddr pre
              (Errorf "unknown Error" []) 1 (authMethod :: post) Hpre)
    as (e' & -> & _).
  rewrite (try_reaches _ _ _ _ _ _ _ _ _ _ _ Hreach), Hneg, emit_emit.
  cbn [emit fst snd]. by rewrite Hauth, app_nil_r.
Qed.

(** X8.  When every configured method is rejected while connecting to
    the selected site, [ConnectToSite] logs and returns, wrapped, the
    access-denied error of [ConnectToNode], which names the host login and
    the empty string as the address: the address is [@<site name>], and
    what precedes its [@] is empty. *)
Theorem ConnectToSite_denied_names_nothing :
  authMethods proxy ≠ [] →
  allRejected U T address login localAddr fakeAddr 1 (authMethods proxy) →
  (∀ err, IsHandshakeFailedError U err = true →
          IsHandshakeFailedError U (Wrap err) = true) →
  ∃ err,
    let denied :=
      Errorf access_denied_format
        [AString login; AString EmptyString; AError (Wrap err)] in
    ConnectToSite U T C proxy
    = (Err (Wrap denied),
       listingEvents
       ++ rejectedEvents address login localAddr fakeAddr 1 (authMethods proxy)
       ++ [ELogError denied]).
Proof.
  intros Hsome Hall Hwrap. rewrite ConnectToSite_selected.
  destruct (try_rejected U T proxy address login localAddr fakeAddr
              (authMethods proxy) (Errorf "unknown Error" []) 1 [] Hall)
    as (e' & Htry & Hlast).
  rewrite app_nil_r in Htry. rewrite Htry.
  destruct (last (authMethods proxy)) as [authMethod|] eqn:Hfinal;
    [|by apply last_None in Hfinal].
  destruct Hlast as (err & Hrej & ->). exists err.
  simpl. rewrite (Hwrap err) by apply Hrej.
  cbn [emit fst snd]. by rewrite !app_nil_r.
Qed.
End SiteConnection.

(** X9.  When the sites cannot be listed or none is selected, be it that
    the listing times out, that no site is registered or that the
    configured name is not listed, [ConnectToSite] returns that error
    wrapped and has asked for no session but the listing one: it starts no
    negotiation. *)
Theorem ConnectToSite_no_site (U : Utils) (T : Transport) (C : Control)
    (proxy : ProxyClient) :
  (∀ err, getSite proxy (GetSites T C 0).1 = Err err →
     ConnectToSite U T C proxy = (Err (Wrap err), (GetSites T C 0).2)
     ∧ negotiations (ConnectToSite U T C proxy).2 = []
     ∧ sessionsAsked (ConnectToSite U T C proxy).2 = [0])
  ∧ (NewSession T 0 = None → StdoutPipe T 0 = None →
     RequestSubsystem T 0 "proxysites" = None → Listing C = None →
       (ConnectToSite U T C proxy).1 = Err (Wrap (Wrap (Errorf "timeout" []))))
  ∧ (lists T C [] →
       (ConnectToSite U T C proxy).1
       = Err (Wrap (NotFound "no sites registered" [])))
  ∧ (∀ sites, lists T C sites → sites ≠ [] → siteName proxy ≠ EmptyString →
       (∀ site, site ∈ sites → Name site ≠ siteName proxy) →
       (ConnectToSite U T C proxy).1
       = Err (Wrap (NotFound "site %v not found" [AString (siteName proxy)]))).
Proof.
  assert (∀ err, getSite proxy (GetSites T C 0).1 = Err err →
            ConnectToSite U T C proxy = (Err (Wrap err), (GetSites T C 0).2))
    as Hfails.
  { intros err Herr. unfold ConnectToSite.
    destruct (GetSites T C 0) as [sites listed]. simpl in Herr. by rewrite Herr. }
  split_and!.
  - intros err Herr. rewrite (Hfails err Herr). split; [done|].
    unfold GetSites. simpl.
    destruct (NewSession T 0); [done|]. destruct (StdoutPipe T 0); [done|].
    destruct (RequestSubsystem T 0 "proxysites"); [done|].
    destruct (Listing C) as [stdout|]; [|done].
    by destruct (Unmarshal C stdout).
  - intros Hnew Hout Hsub Htimeout. rewrite (Hfails (Wrap (Errorf "timeout" []))); [done|].
    unfold GetSites. by rewrite Hnew, Hout, Hsub, Htimeout.
  - intros Hlists. rewrite (Hfails (NotFound "no sites registered" [])); [done|].
    by rewrite (GetSites_lists _ _ _ Hlists).
  - intros sites Hlists Hsites Hname Hnone.
    rewrite (Hfails (NotFound "site %v not found" [AString (siteName proxy)]));
      [done|].
    rewrite (GetSites_lists _ _ _ Hlists). simpl.
    destruct sites as [|site0 rest]; [done|].
    destruct (decide (siteName proxy = EmptyString)); [done|].
    rewrite findSite_None; [done|].
    apply Forall_forall. intros s Hs. by apply Hnone.
Qed.

Lemma exampleControl_lists (T : Transport) :
  NewSession T 0 = None → StdoutPipe T 0 = None →
  RequestSubsystem T 0 "proxysites" = None →
  lists T exampleControl exampleSites.
Proof. intros. split_and!; try done. by eexists. Qed.

Lemma ConnectToSite_dials_site_witness :
  ConnectToSite exampleUtils (exampleTransport [2]) exampleControl
    (exampleProxy [1; 2])
  = (Ok (AuthClientOver {| Client := Connection 2; Proxy := exampleProxy [1; 2] |}),
     listingEvents
     ++ rejectedEvents "@east" "root" exampleLocal (exampleNode "@east") 1
          [Credential 1]
     ++ attemptEvents "@east" "root" exampleLocal (exampleNode "@east") 2
          (Credential 2)).
Proof.
  assert (allRejected exampleUtils (exampleTransport [2]) "@east" "root"
            exampleLocal (exampleNode "@east") 1 [Credential 1]) as Hrejected.
  { intros [|i] a [=]. subst a.
    exists (ErrorString "ssh: handshake failed"). by repeat split. }
  exact (ConnectToSite_dials_site exampleUtils (exampleTransport [2])
           exampleControl (exampleProxy [1; 2]) exampleSites
           {| Name := "east"; Routing := "a" |} exampleLocal (exampleNode "@east")
           (exampleControl_lists (exampleTransport [2]) eq_refl eq_refl eq_refl)
           eq_refl eq_refl eq_refl
           [Credential 1] [] (Credential 2) (Connection 2)
           eq_refl Hrejected (conj eq_refl (conj eq_refl (conj eq_refl
             (conj eq_refl eq_refl)))) eq_refl eq_refl).
Defined.

Lemma ConnectToSite_denied_names_nothing_witness :
  ∃ err,
    (ConnectToSite exampleUtils (exampleTransport []) exampleControl
       (exampleProxy [1; 2])).1
    = Err (Wrap (Errorf access_denied_format
                   [AString "root"; AString EmptyString; AError (Wrap err)])).
Proof.
  assert (allRejected exampleUtils (exampleTransport []) "@east" "root"
            exampleLocal (exampleNode "@east") 1 [Credential 1; Credential 2])
    as Hrejected.
  { intros [|[|i]] a [=]; subst a;
      exists (ErrorString "ssh: handshake failed"); by repeat split. }
  destruct (ConnectToSite_denied_names_nothing exampleUtils (exampleTransport [])
              exampleControl (exampleProxy [1; 2]) exampleSites
              {| Name := "east"; Routing := "a" |} exampleLocal
              (exampleNode "@east")
              (exampleControl_lists (exampleTransport []) eq_refl eq_refl eq_refl)
              eq_refl eq_refl eq_refl
              ltac:(discriminate) Hrejected (λ err H, H))
    as [err Hrun].
  exists err. by rewrite Hrun.
Defined.

Lemma ConnectToSite_no_site_witness :
  (ConnectToSite exampleUtils (exampleTransport [1]) exampleSilent
     (exampleProxy [1; 2])).1
  = Err (Wrap (Wrap (Errorf "timeout" []))).
Proof.
  exact (proj1 (proj2 (ConnectToSite_no_site exampleUtils (exampleTransport [1])
                         exampleSilent (exampleProxy [1; 2])))
           eq_refl eq_refl eq_refl eq_refl).
Defined.

Lemma matchNodes_filter (C : Control) (labels : gmap string string)
    (siteNodes : list Server) : ∀ nodes,
  matchNodes C labels nodes siteNodes
  = nodes ++ filter (λ node, MatchAgainst C node labels) siteNodes.
Proof.
  induction siteNodes as [|node rest IH]; intros nodes; simpl.
  - by rewrite app_nil_r.
  - destruct (MatchAgainst C node labels) eqn:Hmatch.
    + rewrite IH, filter_cons_True; [|by apply Is_true_true].
      by rewrite <- app_assoc.
    + rewrite IH, filter_cons_False; [done|]. by apply Is_true_false.
Qed.

(** X10.  The nodes that [FindServersByLabels] returns are the nodes of
    the site that match the labels, all of them and no other, in the
    order the site lists them and as many times; when every node
    matches, they are the whole listing.  It returns them only when the
    site was connected to and listed its nodes. *)
Theorem FindServersByLabels_matching (U : Utils) (T : Transport) (C : Control)
    (proxy : ProxyClient) (labels : gmap string string) (nodes : list Server) :
  (FindServersByLabels U T C proxy labels).1 = Ok nodes →
  ∃ site siteNodes,
    (ConnectToSite U T C proxy).1 = Ok site
    ∧ GetNodes C site = Ok siteNodes
    ∧ nodes = filter (λ node, MatchAgainst C node labels) siteNodes
    ∧ (∀ node, node ∈ nodes ↔ node ∈ siteNodes ∧ MatchAgainst C node labels = true)
    ∧ nodes `sublist_of` siteNodes
    ∧ ((∀ node, node ∈ siteNodes → MatchAgainst C node labels = true) →
         nodes = siteNodes)
    ∧ (FindServersByLabels U T C proxy labels).2 = (ConnectToSite U T C proxy).2.
Proof.
  unfold FindServersByLabels.
  destruct (ConnectToSite U T C proxy) as [[site|err] connected]; [|done].
  destruct (GetNodes C site) as [siteNodes|err] eqn:Hnodes; [|done].
  simpl. intros [= <-]. exists site, siteNodes.
  rewrite matchNodes_filter, app_nil_l. split_and!; try done.
  - intros node. rewrite list_elem_of_filter. split; intros [? ?]; split; try done.
    + by apply Is_true_true.
    + by apply Is_true_true.
  - apply sublist_filter.
  - intros Hall. clear Hnodes. induction siteNodes as [|node rest IH]; [done|].
    rewrite filter_cons_True.
    + f_equal. apply IH. intros n Hn. apply Hall. by right.
    + apply Is_true_true, Hall. by left.
Qed.

Lemma FindServersByLabels_matching_witness :
  ∃ siteNodes,
    GetNodes exampleControl
      (AuthClientOver {| Client := Connection 1; Proxy := exampleProxy [1; 2] |})
    = Ok siteNodes
    ∧ [ {| Hostname := "db1" |}; {| Hostname := "db2" |} ] `sublist_of` siteNodes.
Proof.
  destruct (FindServersByLabels_matching exampleUtils (exampleTransport [1])
              exampleControl (exampleProxy [1; 2]) ∅
              [ {| Hostname := "db1" |}; {| Hostname := "db2" |} ] eq_refl)
    as (site & siteNodes & [= <-] & Hnodes & _ & _ & Hsub & _).
  by exists siteNodes.
Defined.

(** ** newSession: the local terminal *)

(** Splits a property of every event of a trace of [newSession] along the
    pieces of the trace. *)
Ltac trace_forall :=
  repeat match goal with
  | |- Forall _ [] => apply Forall_nil_2
  | |- Forall _ (_ :: _) => apply Forall_cons_2; [done|]
  | |- Forall _ (passEvars _ _ _ _ ++ passEnv _ _ _) =>
      apply environment_Forall; (by intros [] || by intros ev Henv ->)
  | |- Forall _ (_ ++ _) => apply Forall_app_2
  | |- Forall _ (logError _) => apply logError_Forall; done
  end.

(** X11.  With an attached terminal and no session to join, a session
    that is created has the geometry that [term.GetWinsize] returned, also
    when that call returned an error (which is only logged), and a freshly
    drawn identifier; the terminal is neither resized nor written to. *)
Theorem newSession_local_geometry (L : SessionLib) (T : Transport) (O : Host)
    (client : NodeClient) (environ : option (gmap string string)) :
  SetRawTerminal O = None →
  NewSession T 0 = None →
  let run := newSession L T O client None environ true in
  ∃ ns, fst run = Ok ns
    ∧ terminalSize ns = (GetWinsize O).1
    ∧ id ns = NewID O
    ∧ head (snd run) = Some EGetWinsize
    ∧ (∀ err, (GetWinsize O).2 = Some err → ELogError err ∈ snd run)
    ∧ Forall (λ ev, match ev with
                    | ESetWinsize _ | EStdoutWrite _ => False
                    | _ => True
                    end) (snd run).
Proof.
  intros Hraw Hsession run. subst run. unfold newSession, newSessionFrom.
  destruct (GetWinsize O) as [size err]. rewrite Hraw, Hsession.
  cbn [emit fst snd]. eexists. split_and!; try done.
  - intros e ->. simpl. set_solver.
  - trace_forall.
Qed.

Lemma newSession_local_geometry_witness :
  ∃ ns,
    fst (newSession exampleSessionLib (exampleTransport []) exampleHost
           exampleNodeClient None None true) = Ok ns
    ∧ terminalSize ns = {| Height := 25; Width := 80 |}.
Proof.
  destruct (newSession_local_geometry exampleSessionLib (exampleTransport [])
              exampleHost exampleNodeClient None eq_refl eq_refl)
    as (ns & Hns & Hsize & _).
  exists ns. split; [exact Hns|exact Hsize].
Defined.

(** X12.  With an attached terminal, when the terminal cannot be put in
    raw mode [newSession] returns that error wrapped, whatever session is
    to be joined: no identifier is drawn, no server-side session is asked
    for, the terminal is not resized, and nothing is restored. *)
Theorem newSession_raw_failure (L : SessionLib) (T : Transport) (O : Host)
    (client : NodeClient) (joinSession : option Session)
    (environ : option (gmap string string)) (err : error) :
  SetRawTerminal O = Some err →
  newSession L T O client joinSession environ true
  = (Err (Wrap err),
     EGetWinsize :: logError (GetWinsize O).2 ++ [ESetRawTerminal]).
Proof.
  intros Hraw. unfold newSession. destruct (GetWinsize O) as [size measured].
  rewrite Hraw. unfold emit. simpl. by rewrite app_nil_r.
Qed.

(** X13.  With an attached terminal that was put in raw mode,
    [newSession] restores the terminal as the last thing it does and only
    then, whether it returns a session or the error of the server-side
    session, and whatever session is joined. *)
Theorem newSession_restores_terminal (L : SessionLib) (T : Transport) (O : Host)
    (client : NodeClient) (joinSession : option Session)
    (environ : option (gmap string string)) :
  SetRawTerminal O = None →
  ∃ before,
    snd (newSession L T O client joinSession environ true)
    = before ++ [ERestoreTerminal]
    ∧ Forall (λ ev, ev ≠ ERestoreTerminal) before
    ∧ ESetRawTerminal ∈ before.
Proof.
  intros Hraw. unfold newSession. destruct (GetWinsize O) as [size measured].
  rewrite Hraw. cbn [emit fst snd]. eexists. split; [by rewrite app_comm_cons, app_assoc|].
  split.
  - unfold newSessionFrom.
    destruct joinSession as [joined|], (NewSession T 0);
      cbn [emit fst snd]; trace_forall.
  - set_solver.
Qed.

Lemma newSession_restores_terminal_witness :
  last (snd (newSession exampleSessionLib exampleRefusing exampleHost
               exampleNodeClient (Some exampleJoined) None true))
  = Some ERestoreTerminal.
Proof.
  destruct (newSession_restores_terminal exampleSessionLib exampleRefusing
              exampleHost exampleNodeClient (Some exampleJoined) None eq_refl)
    as (before & -> & _).
  apply last_snoc.
Defined.

Lemma newSession_raw_failure_witness :
  newSession exampleSessionLib (exampleTransport []) exampleNoTerminal
    exampleNodeClient (Some exampleJoined) None true
  = (Err (Wrap (ErrorString "inappropriate ioctl for device")),
     [EGetWinsize; ELogError (ErrorString "inappropriate ioctl for device");
      ESetRawTerminal]).
Proof.
  exact (newSession_raw_failure exampleSessionLib (exampleTransport [])
           exampleNoTerminal exampleNodeClient (Some exampleJoined) None
           (ErrorString "inappropriate ioctl for device") eq_refl).
Defined.

(** ** newSession: the environment *)

Lemma setenvs_app (t1 t2 : list event) :
  setenvs (t1 ++ t2) = setenvs t1 ++ setenvs t2.
Proof. apply bind_app. Qed.

Lemma setenvs_logError (err : option error) : setenvs (logError err) = [].
Proof. by destruct err. Qed.

Lemma setenvs_logWarn (err : option error) : setenvs (logWarn err) = [].
Proof. by destruct err. Qed.

Lemma setenvs_passEvars (T : Transport) (O : Host) (s : nat) :
  setenvs (passEvars T O s ["LANG"; "LANGUAGE"]) = langVars O.
Proof.
  unfold langVars. simpl passEvars.
  rewrite filter_cons, filter_cons, filter_nil. simpl.
  destruct (decide (Getenv O "LANG" = EmptyString)),
    (decide (Getenv O "LANGUAGE" = EmptyString));
    repeat case_decide; try done; simpl;
    rewrite ?setenvs_app, ?app_nil_r; simpl;
    rewrite ?setenvs_app, ?setenvs_logWarn; simpl;
    rewrite ?setenvs_logWarn; try done; by simpl.
Qed.

Lemma setenvs_passEnv (T : Transport) (s : nat) (entries : list (string * string)) :
  setenvs (passEnv T s entries) = entries.
Proof.
  induction entries as [|[key val] entries IH]; [done|].
  simpl. change (setenvs ((logWarn (Setenv T s key val) ++ passEnv T s entries)))
    with (setenvs (logWarn (Setenv T s key val) ++ passEnv T s entries)).
  by rewrite setenvs_app, setenvs_logWarn, IH.
Qed.

(** The requests of a run of [newSession] that returns a session. *)
Lemma newSession_setenvs (L : SessionLib) (T : Transport) (O : Host)
    (client : NodeClient) (joinSession : option Session)
    (environ : option (gmap string string)) (attached : bool) (ns : NodeSession) :
  fst (newSession L T O client joinSession environ attached) = Ok ns →
  env ns = <[SessionEnvVar L := id ns]> (default ∅ environ)
  ∧ setenvs (snd (newSession L T O client joinSession environ attached))
    = langVars O ++ match environ with
                    | Some _ => map_to_list (env ns)
                    | None => []
                    end.
Proof.
  unfold newSession, newSessionFrom.
  destruct attached, joinSession as [joined|], (GetWinsize O) as [size measured],
    (SetRawTerminal O), (NewSession T 0);
    cbn [emit fst snd]; try done; intros [= <-]; (split; [done|]);
    cbn [env id];
    repeat (rewrite ?setenvs_app, ?setenvs_logError, ?setenvs_passEvars,
              ?setenvs_passEnv, ?app_nil_r; simpl setenvs at 1;
            rewrite ?app_nil_l);
    try done;
    by rewrite setenvs_app, setenvs_logError.
Qed.

(** X14.  When the caller passes no environment (a nil map), the session
    that is created holds the session identifier under
    [sshutils.SessionEnvVar] in its own environment, but the server is only
    asked to set the language variables [LANG] and [LANGUAGE] that are set
    locally: the loop over the caller's map runs over nothing, so the
    session identifier is not sent. *)
Theorem newSession_nil_env (L : SessionLib) (T : Transport) (O : Host)
    (client : NodeClient) (joinSession : option Session) (attached : bool)
    (ns : NodeSession) :
  fst (newSession L T O client joinSession None attached) = Ok ns →
  env ns = {[ SessionEnvVar L := id ns ]}
  ∧ setenvs (snd (newSession L T O client joinSession None attached)) = langVars O
  ∧ ∀ key val,
      (key, val) ∈ setenvs (snd (newSession L T O client joinSession None attached)) →
      (key = "LANG" ∨ key = "LANGUAGE") ∧ val = Getenv O key ∧ val ≠ EmptyString.
Proof.
  intros Hns. destruct (newSession_setenvs _ _ _ _ _ _ _ _ Hns) as [Henv Hsent].
  rewrite Hsent, app_nil_r. split_and!; [done|done|].
  intros key val. unfold langVars. rewrite list_elem_of_filter.
  rewrite !elem_of_cons, elem_of_nil. simpl.
  intros [Hval [[= -> ->]|[[= -> ->]|[]]]]; auto.
Qed.

Lemma newSession_nil_env_witness :
  setenvs (snd (newSession exampleSessionLib (exampleTransport []) exampleHost
                  exampleNodeClient None None false))
  = [("LANG", "en_US.UTF-8")].
Proof.
  destruct (newSession_nil_env exampleSessionLib (exampleTransport []) exampleHost
              exampleNodeClient None false
              {| id := "6a7b8c9d";
                 env := {[ "TELEPORT_SESSION" := "6a7b8c9d" ]};
                 attachedTerm := false;
                 terminalSize := {| Height := 25; Width := 80 |};
                 serverSession := 0; nodeClient := exampleNodeClient |})
    as (_ & Hsent & _).
  - unfold newSession, newSessionFrom. cbn [emit fst snd]. simpl.
    by rewrite insert_empty.
  - rewrite Hsent. reflexivity.
Defined.

(** X15.  When the caller passes an environment, the session's
    environment is the caller's map with the session identifier stored
    under [sshutils.SessionEnvVar], in place of any value the caller had
    there; after the language variables the server is asked to set every
    entry of that map once: the session identifier, and every other
    variable of the caller with the caller's value. *)
Theorem newSession_env_sent (L : SessionLib) (T : Transport) (O : Host)
    (client : NodeClient) (joinSession : option Session) (attached : bool)
    (environ : gmap string string) (ns : NodeSession) :
  fst (newSession L T O client joinSession (Some environ) attached) = Ok ns →
  ∃ entries,
    setenvs (snd (newSession L T O client joinSession (Some environ) attached))
    = langVars O ++ entries
    ∧ NoDup entries.*1
    ∧ (∀ key val, (key, val) ∈ entries ↔ env ns !! key = Some val)
    ∧ env ns !! SessionEnvVar L = Some (id ns)
    ∧ (∀ key, key ≠ SessionEnvVar L → env ns !! key = environ !! key).
Proof.
  intros Hns. destruct (newSession_setenvs _ _ _ _ _ _ _ _ Hns) as [Henv Hsent].
  exists (map_to_list (env ns)). split_and!.
  - done.
  - apply NoDup_fst_map_to_list.
  - intros key val. apply elem_of_map_to_list.
  - rewrite Henv. apply lookup_insert_eq.
  - intros key Hkey. rewrite Henv. by apply lookup_insert_ne.
Qed.

Lemma newSession_env_sent_witness :
  ∃ ns,
    fst (newSession exampleSessionLib (exampleTransport []) exampleHost
           exampleNodeClient (Some exampleJoined)
           (Some {[ "TELEPORT_SESSION" := "mine"; "TERM" := "xterm" ]}) false)
    = Ok ns
    ∧ env ns !! "TELEPORT_SESSION" = Some "0f1e2d3c"
    ∧ env ns !! "TERM" = Some "xterm".
Proof.
  eexists. split; [reflexivity|].
  destruct (newSession_env_sent exampleSessionLib (exampleTransport [])
              exampleHost exampleNodeClient (Some exampleJoined) false
              {[ "TELEPORT_SESSION" := "mine"; "TERM" := "xterm" ]} _ eq_refl)
    as (entries & _ & _ & _ & Hid & Hother).
  split; [exact Hid|]. by rewrite (Hother "TERM").
Defined.


(** X17.  A session that joins [joined] without an attached terminal
    takes the identifier and the geometry of [joined] and leaves the local
    terminal alone: no size is read or set, and no escape is written. *)
Theorem newSession_join_detached (L : SessionLib) (T : Transport) (O : Host)
    (client : NodeClient) (joined : Session)
    (environ : option (gmap string string)) :
  let run := newSession L T O client (Some joined) environ false in
  Forall (λ ev, touchesTerminal ev = false ∧ ev ≠ ENewID) (snd run)
  ∧ (NewSession T 0 = None →
       ∃ ns, fst run = Ok ns
         ∧ id ns = ID joined
         ∧ terminalSize ns = ParamsWinsize L (Params joined)
         ∧ attachedTerm ns = false).
Proof.
  intros run. subst run. unfold newSession, newSessionFrom. split.
  - destruct (NewSession T 0); cbn [emit fst snd app].
    + by repeat constructor.
    + constructor; [done|]. apply environment_Forall. by intros [].
  - intros ->. by eexists.
Qed.

Lemma newSession_join_detached_witness :
  ∃ ns,
    fst (newSession exampleSessionLib (exampleTransport []) exampleNoTerminal
           exampleNodeClient (Some exampleJoined) None false) = Ok ns
    ∧ terminalSize ns = {| Height := 40; Width := 120 |}.
Proof.
  destruct (proj2 (newSession_join_detached exampleSessionLib (exampleTransport [])
                     exampleNoTerminal exampleNodeClient exampleJoined None)
              eq_refl)
    as (ns & Hns & _ & Hsize & _).
  exists ns. split; [exact Hns|exact Hsize].
Defined.

(** ** allocateTerminal and Shell *)

Lemma allocateTerminal_granted (T : Transport) (ns : NodeSession) :
  terminalGranted T ns →
  allocateTerminal T ns
  = ((Some (PipeOver (serverSession ns)), None),
     [ERequestPty (serverSession ns) "xterm"
        (Z.of_N (Height (terminalSize ns))) (Z.of_N (Width (terminalSize ns)));
      EStdinPipe (serverSession ns); EStdoutPipe (serverSession ns);
      EStderrPipe (serverSession ns)]
     ++ (if attachedTerm ns then [EGo "updateTerminalSize"] else [])
     ++ [EGo "io.Copy(os.Stderr, stderr)"]).
Proof.
  intros (Hpty & Hin & Hout & Herr). unfold allocateTerminal.
  by rewrite Hpty, Hin, Hout, Herr.
Qed.

Lemma allocateTerminal_refused (T : Transport) (ns : NodeSession) :
  ¬ terminalGranted T ns →
  ∃ err trace,
    allocateTerminal T ns = ((None, Some (Wrap err)), trace)
    ∧ Forall (λ ev, match ev with EGo _ => False | _ => True end) trace.
Proof.
  unfold terminalGranted, allocateTerminal. intros Hrefused.
  destruct (RequestPty T _ _ _ _) as [err|];
    [eexists _, _; split; [done|by repeat constructor]|].
  destruct (StdinPipe T _) as [err|];
    [eexists _, _; split; [done|by repeat constructor]|].
  destruct (StdoutPipe T _) as [err|];
    [eexists _, _; split; [done|by repeat constructor]|].
  destruct (StderrPipe T _) as [err|];
    [eexists _, _; split; [done|by repeat constructor]|].
  by destruct Hrefused.
Qed.


(** X19.  [Shell] returns a pipe without an error exactly when the
    pseudo-terminal, the three pipes and the shell are all granted; the
    resize loop of an attached terminal and the copy of the error stream
    are then started before the shell is asked for. *)
Theorem Shell_returns_pipe (T : Transport) (nc : NodeSession) :
  ((Shell T nc).1 = (Some (PipeOver (serverSession nc)), None)
   ↔ terminalGranted T nc ∧ StartShell T (serverSession nc) = None)
  ∧ (terminalGranted T nc →
       ∃ allocated,
         (Shell T nc).2
         = allocated
           ++ (if attachedTerm nc then [EGo "updateTerminalSize"] else [])
           ++ [EGo "io.Copy(os.Stderr, stderr)"; EShell (serverSession nc)]
         ∧ Forall (λ ev, match ev with EGo _ | EShell _ => False | _ => True end)
             allocated).
Proof.
  assert (terminalGranted T nc ∨ ¬ terminalGranted T nc) as [Hgranted|Hrefused].
  { unfold terminalGranted.
    destruct (RequestPty T _ _ _ _), (StdinPipe T _), (StdoutPipe T _),
      (StderrPipe T _); (by left) || (right; by intros (? & ? & ? & ?)). }
  - unfold Shell. rewrite (allocateTerminal_granted _ _ Hgranted). split.
    + destruct (StartShell T (serverSession nc)); cbn [emit fst snd];
        split; (done || by intros [_ [=]] || by intros [=]).
    + intros _.
      exists [ERequestPty (serverSession nc) "xterm"
                (Z.of_N (Height (terminalSize nc)))
                (Z.of_N (Width (terminalSize nc)));
              EStdinPipe (serverSession nc); EStdoutPipe (serverSession nc);
              EStderrPipe (serverSession nc)].
      split; [|by repeat constructor].
      destruct (StartShell T (serverSession nc)), (attachedTerm nc); reflexivity.
  - split; [|done]. unfold Shell.
    destruct (allocateTerminal_refused _ _ Hrefused) as (err & trace & -> & _).
    destruct (StartShell T (serverSession nc)); cbn [emit fst snd];
      split; (by intros [=]) || (by intros [? _]).
Qed.

Lemma Shell_returns_pipe_witness :
  ∃ allocated,
    (Shell (exampleTransport []) exampleNodeSession).2
    = allocated
      ++ [EGo "updateTerminalSize"; EGo "io.Copy(os.Stderr, stderr)"; EShell 0].
Proof.
  destruct (proj2 (Shell_returns_pipe (exampleTransport []) exampleNodeSession))
    as (allocated & Hrun & _).
  - by repeat split.
  - by exists allocated.
Defined.

(** ** updateTerminalSize: what every run does *)

Lemma emit_fst {A : Type} (evs : list event) (r : A * list event) :
  (emit evs r).1 = r.1.
Proof. done. Qed.

Lemma emit_snd {A : Type} (evs : list event) (r : A * list event) :
  (emit evs r).2 = evs ++ r.2.
Proof. done. Qed.

Section ResizeLoop.
Variables (L : SessionLib) (ns : NodeSession) (siteClient : bool).

Local Abbreviation loop := (resizeLoop L ns siteClient).

(** One round either ends the loop or is followed by the loop on the
    rounds left, with some [currentSize] and [prevSess]. *)
Lemma resizeLoop_round (round : selected) (currentSize : Winsize)
    (prevSess : option Session) :
  (∃ exit, (exit = Returned ∨ exit = Panicked)
     ∧ ∀ rest, loop currentSize prevSess (round :: rest) = (exit, []))
  ∨ (∃ evs currentSize' prevSess',
       ∀ rest, loop currentSize prevSess (round :: rest)
               = emit evs (loop currentSize' prevSess' rest)).
Proof.
  destruct round as [[|] [winSize [e|]] sent|sess [size measured] set|]; simpl.
  - right. eexists _, _, _. intros rest. by rewrite emit_emit.
  - right. destruct (sameSize winSize currentSize).
    + by eexists _, _, _.
    + eexists _, _, _. intros rest. by rewrite emit_emit.
  - left. exists Returned. auto.
  - left. exists Returned. auto.
  - destruct siteClient; simpl; [|left; exists Panicked; auto].
    right. destruct sess as [[cur|]|e].
    + destruct prevSess as [prev|]; [|by eexists _, _, _].
      destruct (sameParams (Params prev) (Params cur)); [by eexists _, _, _|].
      eexists _, _, _. intros rest. by rewrite emit_emit.
    + destruct prevSess; by eexists _, _, _.
    + eexists _, _, _. intros rest. by rewrite emit_emit.
  - left. exists Returned. auto.
Qed.

Lemma resizeLoop_stop (stop : selected) (currentSize : Winsize)
    (prevSess : option Session) (rest : list selected) :
  stops stop = true →
  loop currentSize prevSess (stop :: rest) = (Returned, []).
Proof. by destruct stop as [[|] [? ?] ?| |]. Qed.

(** X20.  A receive from [closer.C], and a nil signal, end the resize
    loop for good: the rounds that come after are not served, and the loop
    is not left waiting. *)
Theorem resizeLoop_stops (stop : selected) (before after : list selected) :
  stops stop = true →
  ∀ currentSize prevSess,
    loop currentSize prevSess (before ++ stop :: after)
    = loop currentSize prevSess (before ++ [stop])
    ∧ ((loop currentSize prevSess (before ++ stop :: after)).1 = Returned
       ∨ (loop currentSize prevSess (before ++ stop :: after)).1 = Panicked).
Proof.
  intros Hstop. induction before as [|round before IH]; intros currentSize prevSess.
  - simpl app. rewrite !(resizeLoop_stop _ _ _ _ Hstop). auto.
  - simpl app.
    destruct (resizeLoop_round round currentSize prevSess)
      as [(exit & Hexit & Hround)|(evs & currentSize' & prevSess' & Hround)].
    + rewrite !Hround. split; [done|]. by destruct Hexit as [-> | ->]; auto.
    + rewrite !Hround, !emit_fst.
      destruct (IH currentSize' prevSess') as [-> Hends]. by split.
Qed.
End ResizeLoop.

Lemma resizeLoop_stops_witness :
  updateTerminalSize exampleSessionLib exampleNodeSession
    ({| Height := 25; Width := 80 |}, None) None (CloserC :: exampleRounds)
  = (Returned, [EGetWinsize; EConnectToSite]).
Proof.
  unfold updateTerminalSize.
  destruct (resizeLoop_stops exampleSessionLib exampleNodeSession true CloserC
              [] exampleRounds eq_refl {| Height := 25; Width := 80 |} None)
    as [Hrun _].
  simpl app in Hrun. cbn [fst]. simpl bool_decide. by rewrite Hrun.
Defined.

Lemma windowChanges_app (t1 t2 : list event) :
  windowChanges (t1 ++ t2) = windowChanges t1 ++ windowChanges t2.
Proof. apply bind_app. Qed.

Lemma resizes_app (t1 t2 : list event) :
  resizes (t1 ++ t2) = resizes t1 ++ resizes t2.
Proof. apply bind_app. Qed.

Lemma resizes_logError (err : option error) : resizes (logError err) = [].
Proof. by destruct err. Qed.

(** A signal is served with the state of the loop unchanged, and never
    resizes the local terminal. *)
Lemma resizeLoop_signal (L : SessionLib) (ns : NodeSession) (siteClient : bool)
    (currentSize : Winsize) (prevSess : option Session) (round : selected) :
  liveSignal round = true →
  ∃ evs,
    (∀ rest, resizeLoop L ns siteClient currentSize prevSess (round :: rest)
             = emit evs (resizeLoop L ns siteClient currentSize prevSess rest))
    ∧ resizes evs = [].
Proof.
  destruct round as [[|] [winSize [e|]] sent| |]; try done; intros _; simpl.
  - eexists. split; [intros rest; by rewrite emit_emit|done].
  - destruct (sameSize winSize currentSize).
    + eexists. split; [done|done].
    + eexists. split; [intros rest; by rewrite emit_emit|by destruct sent].
Qed.

Lemma resizeLoop_signals (L : SessionLib) (ns : NodeSession) (siteClient : bool)
    (currentSize : Winsize) (prevSess : option Session)
    (signals tail : list selected) :
  Forall (λ round, liveSignal round = true) signals →
  resizeLoop L ns siteClient currentSize prevSess (signals ++ tail)
  = emit (resizeLoop L ns siteClient currentSize prevSess signals).2
      (resizeLoop L ns siteClient currentSize prevSess tail)
  ∧ resizes (resizeLoop L ns siteClient currentSize prevSess signals).2 = [].
Proof.
  induction 1 as [|round signals Hround _ [IH IHnone]].
  - by rewrite emit_nil.
  - destruct (resizeLoop_signal L ns siteClient currentSize prevSess round Hround)
      as (evs & Hserved & Hnone).
    change ((round :: signals) ++ tail) with (round :: (signals ++ tail)).
    rewrite !Hserved, IH, emit_emit, emit_snd. split; [done|].
    by rewrite resizes_app, Hnone, IHnone.
Qed.

(** X21.  When [ConnectToSite] fails at the start of the resize loop, the
    error is logged and the loop goes on with a nil site client: it serves
    the signals as usual, and its first tick calls a method of the nil
    client and panics, before anything is done for that tick. *)
Theorem updateTerminalSize_nil_client (L : SessionLib) (ns : NodeSession)
    (start : Winsize * option error) (err : error)
    (signals rest : list selected) (sess : result (option Session))
    (winsize : Winsize * option error) (set : option error) :
  Forall (λ round, liveSignal round = true) signals →
  updateTerminalSize L ns start (Some err) (signals ++ TickC sess winsize set :: rest)
  = (Panicked,
     EGetWinsize :: EConnectToSite :: ELogError err
     :: (resizeLoop L ns false start.1 None signals).2)
  ∧ (resizeLoop L ns false start.1 None signals).2
    = (resizeLoop L ns true start.1 None signals).2.
Proof.
  intros Hsignals. unfold updateTerminalSize. simpl bool_decide.
  destruct (resizeLoop_signals L ns false start.1 None signals
              (TickC sess winsize set :: rest) Hsignals) as [-> _].
  destruct winsize as [size measured]. split.
  - simpl. unfold emit. simpl. by rewrite app_nil_r.
  - generalize start.1 as currentSize. generalize (@None Session) as prevSess.
    induction Hsignals as [|round signals Hround _ IH]; intros prevSess currentSize;
      [done|].
    destruct round as [[|] [winSize [e|]] sent| |]; try done; simpl.
    + unfold emit. simpl. by rewrite IH.
    + destruct (sameSize winSize currentSize); unfold emit; simpl; by rewrite IH.
Qed.

Lemma updateTerminalSize_nil_client_witness :
  (updateTerminalSize exampleSessionLib exampleNodeSession
     ({| Height := 25; Width := 80 |}, None)
     (Some (ErrorString "ssh: handshake failed"))
     (SigC true ({| Height := 40; Width := 120 |}, None) None :: exampleRounds)).1
  = Panicked.
Proof.
  destruct (updateTerminalSize_nil_client exampleSessionLib exampleNodeSession
              ({| Height := 25; Width := 80 |}, None)
              (ErrorString "ssh: handshake failed")
              [SigC true ({| Height := 40; Width := 120 |}, None) None]
              (tail exampleRounds)
              (Ok (Some exampleBefore)) ({| Height := 25; Width := 80 |}, None) None)
    as [Hrun _].
  - by repeat constructor.
  - simpl app in Hrun. simpl tail in Hrun. unfold exampleRounds. by rewrite Hrun.
Defined.

Lemma windowChanges_logError (err : option error) :
  windowChanges (logError err) = [].
Proof. by destruct err. Qed.

Ltac absurd_elem :=
  intros; match goal with H : _ ∈ [] |- _ => by apply elem_of_nil in H end.

Ltac round_facts :=
  simpl; split_and!; try done; try lia; try absurd_elem.

(** What one round that does not end the loop adds to the trace. *)
Lemma resizeLoop_round_adds (L : SessionLib) (ns : NodeSession)
    (siteClient : bool) (round : selected) (currentSize : Winsize)
    (prevSess : option Session) :
  (∃ exit, ∀ rest,
     resizeLoop L ns siteClient currentSize prevSess (round :: rest) = (exit, []))
  ∨ (∃ evs currentSize' prevSess',
       (∀ rest, resizeLoop L ns siteClient currentSize prevSess (round :: rest)
                = emit evs (resizeLoop L ns siteClient currentSize' prevSess' rest))
       ∧ (∀ w h, (w, h) ∈ windowChanges evs →
            ∃ sent, round = SigC true ({| Height := h; Width := w |}, None) sent)
       ∧ (∀ ws, ws ∈ resizes evs →
            ∃ cur winsize set,
              round = TickC (Ok (Some cur)) winsize set
              ∧ ws = ParamsWinsize L (Params cur)
              ∧ is_Some prevSess ∧ is_Some prevSess')
       ∧ length (windowChanges evs) ≤ (if liveSignal round then 1 else 0)
       ∧ length (resizes evs) ≤ 1
       ∧ (isTick round = false → resizes evs = [] ∧ prevSess' = prevSess)).
Proof.
  destruct round as [[|] [winSize [e|]] sent|sess [size measured] set|]; simpl.
  - right. eexists _, _, _. split; [intros rest; by rewrite emit_emit|].
    round_facts.
  - right. destruct (sameSize winSize currentSize).
    + exists [EGetWinsize], currentSize, prevSess. round_facts.
    + eexists _, _, _. split; [intros rest; by rewrite emit_emit|].
      destruct winSize as [h w].
      destruct sent; round_facts;
        intros w' h'; rewrite list_elem_of_singleton; intros [= -> ->];
        by eexists.
  - left. by exists Returned.
  - left. by exists Returned.
  - destruct siteClient; simpl; [|left; by exists Panicked].
    right. destruct sess as [[cur|]|e].
    + destruct prevSess as [prev|].
      * destruct (sameParams (Params prev) (Params cur)).
        -- exists [EGetSession (id ns)], currentSize, (Some prev). round_facts.
        -- eexists _, _, _. split; [intros rest; by rewrite emit_emit|].
           destruct measured, set,
             (negb (Width size =? Width (ParamsWinsize L (Params cur)))%N
              || negb (Height size =? Height (ParamsWinsize L (Params cur)))%N);
             round_facts;
             intros ws; rewrite list_elem_of_singleton; intros ->;
             eexists _, _, _; by split_and!.
      * exists [EGetSession (id ns)], currentSize, (Some cur). round_facts.
    + exists [EGetSession (id ns)], currentSize, None.
      destruct prevSess; round_facts.
    + eexists _, _, _. split; [intros rest; by rewrite emit_emit|].
      round_facts.
  - left. by exists Returned.
Qed.

(** X22.  In every run of the resize loop, each window-change request
    carries the width and height that [term.GetWinsize] returned without
    error at a signal of the rounds, and each size given to the local
    terminal is the geometry of a session that [GetSession] returned at a
    tick: signals never resize the local terminal, and ticks never send a
    request.  There are at most as many requests as signals and as many
    resizes as ticks, one less when no session was recorded before, since
    the tick that records the first session resizes nothing. *)
Theorem resizeLoop_provenance (L : SessionLib) (ns : NodeSession)
    (siteClient : bool) (rounds : list selected) :
  ∀ (currentSize : Winsize) (prevSess : option Session),
    let trace := (resizeLoop L ns siteClient currentSize prevSess rounds).2 in
    (∀ w h, (w, h) ∈ windowChanges trace →
       ∃ sent, SigC true ({| Height := h; Width := w |}, None) sent ∈ rounds)
    ∧ (∀ ws, ws ∈ resizes trace →
         ∃ cur winsize set,
           TickC (Ok (Some cur)) winsize set ∈ rounds
           ∧ ws = ParamsWinsize L (Params cur))
    ∧ length (windowChanges trace)
      ≤ length (filter (λ r, liveSignal r = true) rounds)
    ∧ length (resizes trace)
      ≤ length (filter (λ r, isTick r = true) rounds)
        - (if prevSess is Some _ then 0 else 1).
Proof.
  induction rounds as [|round rounds IH]; intros currentSize prevSess trace;
    subst trace.
  { simpl. split_and!; try absurd_elem; lia. }
  assert (length (filter (λ r, liveSignal r = true) (round :: rounds))
          = (if liveSignal round then 1 else 0)
            + length (filter (λ r, liveSignal r = true) rounds)) as ->.
  { rewrite filter_cons. destruct (liveSignal round); by case_decide. }
  assert (length (filter (λ r, isTick r = true) (round :: rounds))
          = (if isTick round then 1 else 0)
            + length (filter (λ r, isTick r = true) rounds)) as ->.
  { rewrite filter_cons. destruct (isTick round); by case_decide. }
  destruct (resizeLoop_round_adds L ns siteClient round currentSize prevSess)
    as [[exit Hround]
       |(evs & currentSize' & prevSess' & Hround & Hreq & Hres & Hn & Hm & Hkeep)].
  { rewrite Hround. simpl. split_and!; try absurd_elem; lia. }
  rewrite Hround, emit_snd, windowChanges_app, resizes_app, !length_app.
  destruct (IH currentSize' prevSess') as (IHreq & IHres & IHn & IHm).
  split_and!.
  - intros w h. rewrite elem_of_app. intros [Hin|Hin].
    + destruct (Hreq w h Hin) as [sent ->]. exists sent. by left.
    + destruct (IHreq w h Hin) as [sent Hsent]. exists sent. by right.
  - intros ws. rewrite elem_of_app. intros [Hin|Hin].
    + destruct (Hres ws Hin) as (cur & winsize & set & -> & -> & _).
      exists cur, winsize, set. split; [by left|done].
    + destruct (IHres ws Hin) as (cur & winsize & set & Hcur & ->).
      exists cur, winsize, set. split; [by right|done].
  - lia.
  - destruct (isTick round) eqn:Htick.
    + destruct (resizes evs) as [|ws others] eqn:Hevs.
      * simpl. destruct prevSess, prevSess'; lia.
      * destruct (Hres ws) as (cur & winsize & set & _ & _ & [prev ->] & [now ->]).
        { by left. }
        simpl in *. lia.
    + destruct (Hkeep eq_refl) as [-> ->]. simpl. lia.
Qed.
